(** * FRMR to OSCAL build: a shallow embedding and its properties

    The development follows the TypeScript sources
      tools/scripts/oscal/uuid-generator.ts
      tools/scripts/oscal/catalog-builder.ts
      tools/scripts/oscal/mapping-builder.ts   (with oscal/types.ts)
      tools/scripts/build-oscal.ts
    Definitions keep the names of the functions they embed.

    Modelling conventions.
    - A JS string is a [string] holding its UTF-8 bytes. [toLowerCase] folds
      the ASCII letters A-Z and leaves every other byte alone: it is
      [String.prototype.toLowerCase] on ASCII strings, and only there (the
      JS function also folds letters outside ASCII). The keys of the data
      source are ASCII identifiers; a statement that compares folded keys
      says so with [ascii_only].
    - A JS object used as a record ([Record<string, T>]) is an association
      list in [Object.entries] order. JSON objects have pairwise distinct
      keys; where a statement depends on that, it says so.
    - A JS [Map] is a [gmap], a JS [Set] a [gset]: the builders only use
      [get]/[set]/[has]/[add] on them.
    - An optional field is an [option]; JS truthiness of an optional string
      is [truthy] (present and not empty).
    - [timeframe_num] holds integers; [String(n)] is their decimal form.
    - [new Date().toISOString()] is the parameter [now] of the builders. *)

From Stdlib Require Import ZArith List Ascii String Lia Bool.
From stdpp Require Import base gmap strings list fin_maps pretty.
Import ListNotations.

Local Open Scope Z_scope.

(** ** JS string primitives *)

Module Js.

Definition lower_ascii (c : ascii) : ascii :=
  let n := nat_of_ascii c in
  if ((65 <=? n)%nat && (n <=? 90)%nat)%bool then ascii_of_nat (n + 32) else c.

Definition upper_ascii (c : ascii) : ascii :=
  let n := nat_of_ascii c in
  if ((97 <=? n)%nat && (n <=? 122)%nat)%bool then ascii_of_nat (n - 32) else c.

Fixpoint toLowerCase (s : string) : string :=
  match s with
  | EmptyString => EmptyString
  | String c s' => String (lower_ascii c) (toLowerCase s')
  end.

Fixpoint toUpperCase (s : string) : string :=
  match s with
  | EmptyString => EmptyString
  | String c s' => String (upper_ascii c) (toUpperCase s')
  end.

(** [xs.join(sep)] on an array of strings. *)
Fixpoint join (sep : string) (xs : list string) : string :=
  match xs with
  | [] => ""
  | [x] => x
  | x :: rest => x +:+ sep +:+ join sep rest
  end.

(** Truthiness of an optional string: [undefined] and the empty string are
    falsy. *)
Definition truthy (o : option string) : bool :=
  match o with
  | Some (String _ _) => true
  | _ => false
  end.

(** Truthiness of an optional object or array: only [undefined] is falsy. *)
Definition defined {A} (o : option A) : bool :=
  match o with Some _ => true | None => false end.

(** [String(n)] for an integer [n]. *)
Definition String_of_number (n : Z) : string := pretty n.

(** [s.substring(a, b)] for [a <= b]. *)
Definition substring (a b : nat) (s : string) : string :=
  String.substring a (b - a) s.

End Js.

(** ** SHA-1 ([createHash("sha1")] of Node's crypto module, FIPS 180-4) *)

Module Sha1.

Definition w32 (x : Z) : Z := x mod 2 ^ 32.
Definition add32 (x y : Z) : Z := w32 (x + y).
Definition rotl (n x : Z) : Z :=
  w32 (Z.lor (Z.shiftl x n) (Z.shiftr x (32 - n))).
Definition not32 (x : Z) : Z := Z.lxor x 0xFFFFFFFF.

Definition Ch (x y z : Z) : Z := Z.lxor (Z.land x y) (Z.land (not32 x) z).
Definition Parity (x y z : Z) : Z := Z.lxor (Z.lxor x y) z.
Definition Maj (x y z : Z) : Z :=
  Z.lxor (Z.lxor (Z.land x y) (Z.land x z)) (Z.land y z).

Definition f (t : nat) (b c d : Z) : Z :=
  if (t <? 20)%nat then Ch b c d
  else if (t <? 40)%nat then Parity b c d
  else if (t <? 60)%nat then Maj b c d
  else Parity b c d.

Definition K (t : nat) : Z :=
  if (t <? 20)%nat then 0x5a827999
  else if (t <? 40)%nat then 0x6ed9eba1
  else if (t <? 60)%nat then 0x8f1bbcdc
  else 0xca62c1d6.

(** Big-endian bytes of a word of [n] bytes. *)
Fixpoint be_bytes (n : nat) (x : Z) : list Z :=
  match n with
  | O => []
  | S n' => Z.land (Z.shiftr x (8 * Z.of_nat n')) 0xFF :: be_bytes n' x
  end.

Definition be_word (bs : list Z) : Z :=
  fold_left (fun acc b => Z.lor (Z.shiftl acc 8) b) bs 0.

(** Message padding: a one bit, zeros, and the bit length on 64 bits. *)
Definition pad (msg : list Z) : list Z :=
  let l := length msg in
  let k := ((64 - (l + 9) mod 64) mod 64)%nat in
  msg ++ [0x80] ++ repeat 0 k ++ be_bytes 8 (8 * Z.of_nat l).

Fixpoint chunks (n : nat) (size : nat) (l : list Z) : list (list Z) :=
  match n with
  | O => []
  | S n' => take size l :: chunks n' size (drop size l)
  end.

Definition words_of_block (blk : list Z) : list Z :=
  map be_word (chunks 16 4 blk).

(** The message schedule, most recent word first while it is extended. *)
Fixpoint extend (n : nat) (ws : list Z) : list Z :=
  match n with
  | O => ws
  | S n' =>
      let x := Z.lxor (Z.lxor (nth 2 ws 0) (nth 7 ws 0))
                      (Z.lxor (nth 13 ws 0) (nth 15 ws 0)) in
      extend n' (rotl 1 x :: ws)
  end.

Definition schedule (blk : list Z) : list Z :=
  rev (extend 64 (rev (words_of_block blk))).

Record regs := mkRegs { ra : Z; rb : Z; rc : Z; rd : Z; re : Z }.

Definition H0 : regs :=
  mkRegs 0x67452301 0xefcdab89 0x98badcfe 0x10325476 0xc3d2e1f0.

Definition round (st : regs * nat) (wt : Z) : regs * nat :=
  let '(r, t) := st in
  let temp :=
    add32 (add32 (add32 (add32 (rotl 5 (ra r)) (f t (rb r) (rc r) (rd r)))
                        (re r)) (K t)) wt in
  (mkRegs temp (ra r) (rotl 30 (rb r)) (rc r) (rd r), S t).

Definition compress (h : regs) (blk : list Z) : regs :=
  let r := fst (fold_left round (schedule blk) (h, O)) in
  mkRegs (add32 (ra h) (ra r)) (add32 (rb h) (rb r)) (add32 (rc h) (rc r))
         (add32 (rd h) (rd r)) (add32 (re h) (re r)).

Definition digest (msg : list Z) : list Z :=
  let padded := pad msg in
  let blocks := chunks (length padded / 64) 64 padded in
  let h := fold_left compress blocks H0 in
  be_bytes 4 (ra h) ++ be_bytes 4 (rb h) ++ be_bytes 4 (rc h)
    ++ be_bytes 4 (rd h) ++ be_bytes 4 (re h).

End Sha1.

(** ** uuid-generator.ts *)

Module Hex.

Definition digit (n : Z) : ascii :=
  if n <? 10 then ascii_of_nat (Z.to_nat n + 48)
  else ascii_of_nat (Z.to_nat n + 87).

(** [buf.toString("hex")] *)
Fixpoint encode (bs : list Z) : string :=
  match bs with
  | [] => ""
  | b :: rest => String (digit (b / 16)) (String (digit (b mod 16)) (encode rest))
  end.

Definition value (c : ascii) : option Z :=
  let n := Z.of_nat (nat_of_ascii c) in
  if (48 <=? n) && (n <=? 57) then Some (n - 48)
  else if (97 <=? n) && (n <=? 102) then Some (n - 87)
  else if (65 <=? n) && (n <=? 70) then Some (n - 55)
  else None.

(** [Buffer.from(s, "hex")]: decoding stops at the first pair that is not
    two hex digits. *)
Fixpoint decode (s : string) : list Z :=
  match s with
  | String a (String b rest) =>
      match value a, value b with
      | Some x, Some y => (16 * x + y) :: decode rest
      | _, _ => []
      end
  | _ => []
  end.

End Hex.

(** [namespace.replace(/-/g, "")] *)
Fixpoint remove_hyphens (s : string) : string :=
  match s with
  | EmptyString => EmptyString
  | String c s' =>
      if Ascii.eqb c "-"%char then remove_hyphens s'
      else String c (remove_hyphens s')
  end.

Definition utf8 (s : string) : list Z :=
  map (fun c => Z.of_nat (nat_of_ascii c)) (list_ascii_of_string s).

(** [hash[i] = g(hash[i])] on a buffer. *)
Definition set_byte (i : nat) (g : Z -> Z) (bs : list Z) : list Z :=
  match bs !! i with
  | Some b => <[i := g b]> bs
  | None => bs
  end.

Definition DNS_NAMESPACE : string := "6ba7b810-9dad-11d1-80b4-00c04fd430c8".

Definition uuidV5 (namespace name : string) : string :=
  let nsBytes := Hex.decode (remove_hyphens namespace) in
  let hash := Sha1.digest (nsBytes ++ utf8 name) in
  let hash := set_byte 6 (fun b => Z.lor (Z.land b 0x0f) 0x50) hash in
  let hash := set_byte 8 (fun b => Z.lor (Z.land b 0x3f) 0x80) hash in
  let hex := Hex.encode (take 16 hash) in
  Js.join "-"
    [ Js.substring 0 8 hex; Js.substring 8 12 hex; Js.substring 12 16 hex;
      Js.substring 16 20 hex; Js.substring 20 32 hex ].

Inductive Namespace :=
| NsCatalog | NsFrdTerm | NsFrrControl | NsKsiControl | NsMappingCollection
| NsMappingEntry | NsParty | NsGroup | NsMapping.

(** The label each sub-namespace is derived from. *)
Definition namespace_label (ns : Namespace) : string :=
  match ns with
  | NsCatalog => "fedramp-frmr-catalog"
  | NsFrdTerm => "fedramp-frd-term"
  | NsFrrControl => "fedramp-frr-control"
  | NsKsiControl => "fedramp-ksi-control"
  | NsMappingCollection => "fedramp-ksi-nist-mapping"
  | NsMappingEntry => "fedramp-mapping-entry"
  | NsParty => "fedramp-party"
  | NsGroup => "fedramp-group"
  | NsMapping => "fedramp-mapping"
  end.

Definition NAMESPACES (ns : Namespace) : string :=
  uuidV5 DNS_NAMESPACE (namespace_label ns).

Definition generateUUID (ns : Namespace) (id : string) : string :=
  uuidV5 (NAMESPACES ns) id.

(** The hash is only ever evaluated on closed inputs. *)
Arguments uuidV5 : simpl never.
Arguments generateUUID : simpl never.


(** ** oscal/types.ts: the FRMR source data

    Only the fields the builders and the validator read are kept
    ([updated], [reference] of requirements and indicators, [web_name], ...
    are never read). *)

Record FRMRInfo := mkInfo {
  info_version : string;
  info_last_updated : string }.

Record FRDTermEntry := mkTerm {
  term_fka : option string;
  term_term : string;
  term_alts : option (list string);
  term_definition : string;
  term_reference : option string;
  term_reference_url : option string }.

Record LevelData := mkLevel {
  lvl_statement : string;
  lvl_primary_key_word : string;
  lvl_timeframe_type : option string;
  lvl_timeframe_num : option Z }.

Record ReqExample := mkExample {
  ex_id : string;
  ex_key_tests : option (list string);
  ex_examples : option (list string) }.

Record Notification := mkNotification {
  n_party : string;
  n_method : string;
  n_target : string }.

(** [impact] is declared a string, and the builder also accepts an object
    of named boolean flags. *)
Inductive Impact :=
| ImpactText (s : string)
| ImpactFlags (flags : list (string * bool)).

Record FRRRequirement := mkReq {
  req_fka : option string;
  req_fkas : option (list string);
  req_name : option string;
  req_statement : option string;
  req_primary_key_word : option string;
  req_terms : option (list string);
  req_affects : option (list string);
  req_notes : option (list string);
  req_note : option string;
  req_examples : option (list ReqExample);
  req_following_information : option (list string);
  req_following_information_bullets : option (list string);
  req_notification : option (list Notification);
  req_timeframe_type : option string;
  req_timeframe_num : option Z;
  req_varies_by_level : option (list (string * LevelData));
  req_impact : option Impact;
  req_danger : option string }.

Record Authority := mkAuthority {
  auth_reference : string;
  auth_description : string;
  auth_delegation : option string }.

Record FRRProcessInfo := mkProcessInfo {
  pi_name : string;
  pi_short_name : string;
  pi_authority : option (list Authority);   (* front_matter.authority *)
  pi_purpose : option string }.             (* front_matter.purpose *)

(** [data]: applicability -> label -> requirement key -> requirement. *)
Record FRRProcess := mkProcess {
  proc_info : FRRProcessInfo;
  proc_data : list (string * list (string * list (string * FRRRequirement))) }.

Record KSIIndicator := mkIndicator {
  ind_fka : option string;
  ind_name : string;
  ind_statement : string;
  ind_controls : option (list string);
  ind_terms : option (list string) }.

Record KSIDomain := mkDomain {
  dom_id : string;
  dom_name : string;
  dom_theme : string;
  dom_indicators : list (string * KSIIndicator) }.

Record FRMRData := mkFRMR {
  frmr_info : FRMRInfo;
  frmr_FRD_data : list (string * list (string * FRDTermEntry));   (* FRD.data *)
  frmr_FRR : list (string * FRRProcess);
  frmr_KSI : list (string * KSIDomain) }.

(** ** oscal/types.ts: the OSCAL target documents

    Optional fields the builders never set ([class], the [controls] of a
    control, the [links] of a part, the [props] of a citation or of a map
    entry, the [links] of the metadata) are left out. *)

Record Property := mkProp {
  prop_name : string;
  prop_value : string;
  prop_ns : option string }.

Record Link := mkLink {
  link_href : string;
  link_rel : option string;
  link_text : option string }.

#[local] Set Warnings "-register-all".

Inductive Part := mkPart {
  part_id : option string;
  part_name : string;
  part_ns : option string;
  part_prose : option string;
  part_props : option (list Property);
  part_parts : option (list Part) }.

Record Control := mkControl {
  ctl_id : string;
  ctl_title : string;
  ctl_props : option (list Property);
  ctl_links : option (list Link);
  ctl_parts : option (list Part) }.

Inductive Group := mkGroup {
  grp_id : option string;
  grp_title : string;
  grp_props : option (list Property);
  grp_parts : option (list Part);
  grp_controls : option (list Control);
  grp_groups : option (list Group) }.

Record Citation := mkCitation {
  cit_text : string;
  cit_links : option (list Link) }.

Record BackMatterResource := mkResource {
  res_uuid : string;
  res_title : option string;
  res_description : option string;
  res_citation : option Citation;
  res_props : option (list Property) }.

Record BackMatter := mkBackMatter { resources : list BackMatterResource }.

Record Party := mkParty {
  party_uuid : string;
  party_type : string;
  party_name : string;
  party_short_name : option string;
  party_links : option (list Link) }.

Record Metadata := mkMetadata {
  md_title : string;
  md_last_modified : string;
  md_version : string;
  md_oscal_version : string;
  md_roles : list (string * string);                    (* id, title *)
  md_parties : list Party;
  md_responsible_parties : list (string * list string); (* role-id, party-uuids *)
  md_props : option (list Property) }.

Record Catalog := mkCatalog {
  cat_uuid : string;
  cat_metadata : Metadata;
  cat_groups : option (list Group);
  cat_back_matter : option BackMatter }.

Record IdRef := mkIdRef { ref_type : string; id_ref : string }.

Record MapEntry := mkMapEntry {
  me_uuid : string;
  me_relationship : string;
  me_sources : list IdRef;
  me_targets : list IdRef }.

Record MappingResourceReference := mkResourceRef {
  mrr_type : string;
  mrr_href : string }.

Record Mapping := mkMapping {
  mapping_uuid : string;
  source_resource : MappingResourceReference;
  target_resource : MappingResourceReference;
  maps : list MapEntry }.

Record Provenance := mkProvenance {
  prov_method : string;
  prov_matching_rationale : string;
  prov_status : string;
  prov_mapping_description : string }.

Record MappingCollection := mkMappingCollection {
  mc_uuid : string;
  mc_metadata : Metadata;
  mc_provenance : Provenance;
  mc_mappings : list Mapping }.

(** ** oscal/catalog-builder.ts *)

Definition FEDRAMP_NS : string := "https://fedramp.gov/ns/oscal".

Definition fProp (name value : string) : Property :=
  mkProp name value (Some FEDRAMP_NS).

(** [if (xs) for (const x of xs) ...]: the elements of an optional array. *)
Definition elems {A} (o : option (list A)) : list A :=
  match o with Some xs => xs | None => [] end.

(** [if (s) push(f s)] for an optional string [s]. *)
Definition when_truthy {A} (o : option string) (f : string -> A) : list A :=
  match o with
  | Some s => if Js.truthy o then [f s] else []
  | None => []
  end.

(** [xs.length > 0 ? xs : undefined] *)
Definition nonempty {A} (xs : list A) : option (list A) :=
  match xs with [] => None | _ => Some xs end.

(** One-based index used in ids and property names: [i + 1] printed. *)
Definition index1 (i : nat) : string := pretty (S i).

Definition register_term (map : gmap string string)
    (kv : string * FRDTermEntry) : gmap string string :=
  let '(termId, entry) := kv in
  let uuid := generateUUID NsFrdTerm termId in
  let map := <[Js.toLowerCase (term_term entry) := uuid]> map in
  fold_left (fun map alt => <[Js.toLowerCase alt := uuid]> map)
            (elems (term_alts entry)) map.

(** Build a map from term name (lowercase) to resource UUID for linking. *)
Definition buildTermUUIDMap
    (frdData : list (string * list (string * FRDTermEntry)))
  : gmap string string :=
  fold_left (fun map part => fold_left register_term (snd part) map) frdData ∅.

Definition link_key (link : Link) : string :=
  link_href link +:+ "|" +:+ default "" (link_rel link).

(** The [filter] callback of [deduplicateLinks], with its [seen] set. *)
Fixpoint dedup_from (seen : gset string) (links : list Link) : list Link :=
  match links with
  | [] => []
  | link :: rest =>
      let key := link_key link in
      if decide (key ∈ seen) then dedup_from seen rest
      else link :: dedup_from ({[key]} ∪ seen) rest
  end.

(** Deduplicate links by href+rel combination. *)
Definition deduplicateLinks (links : list Link) : list Link :=
  dedup_from ∅ links.

(** All (applicability, label, requirement key, requirement) entries of a
    process, in the order of the three nested [Object.entries] loops. *)
Definition process_entries (process : FRRProcess)
  : list (string * string * string * FRRRequirement) :=
  '(applicability, labelMap) ← proc_data process;
  '(label, requirements) ← labelMap;
  '(reqId, req) ← requirements;
  [(applicability, label, reqId, req)].

Definition note_applicability (m : gmap string (list string))
    (e : string * string * string * FRRRequirement) : gmap string (list string) :=
  let '(applicability, _, reqId, _) := e in
  let existing := default [] (m !! reqId) in
  <[reqId := existing ++ [applicability]]> m.

(** Pre-scan to find requirement IDs that appear under multiple
    applicability levels. *)
Definition findDuplicateReqIds (process : FRRProcess) : gset string :=
  let idToApplicabilities :=
    fold_left note_applicability (process_entries process) ∅ in
  dom (filter (fun kv => (1 < length (snd kv))%nat) idToApplicabilities).

Definition term_links (termMap : gmap string string)
    (terms : option (list string)) : list Link :=
  term ← elems terms;
  match termMap !! Js.toLowerCase term with
  | Some uuid =>
      if Js.truthy (Some uuid)
      then [mkLink ("#" +:+ uuid) (Some "term") (Some term)]
      else []
  | None => []
  end.

Definition level_part (controlId : string) (lv : string * LevelData) : Part :=
  let '(level, levelData) := lv in
  let levelProps :=
    [fProp "level" level; fProp "keyword" (lvl_primary_key_word levelData)]
    ++ when_truthy (lvl_timeframe_type levelData) (fProp "timeframe-type")
    ++ match lvl_timeframe_num levelData with
       | Some n => [fProp "timeframe-num" (Js.String_of_number n)]
       | None => []
       end in
  mkPart (Some (controlId +:+ "_stmt_" +:+ level)) "item" None
         (Some (lvl_statement levelData)) (Some levelProps) None.

Definition item_parts (controlId kind : string) (items : option (list string))
  : list Part :=
  imap (fun i prose =>
          mkPart (Some (controlId +:+ "_stmt_" +:+ kind +:+ "_" +:+ index1 i))
                 "item" None (Some prose) None None)
       (elems items).

Definition example_prose (ex : ReqExample) : string :=
  let lines :=
    ["**" +:+ ex_id ex +:+ "**"]
    ++ match ex_key_tests ex with
       | Some tests => "Key tests:" :: map (fun test => "- " +:+ test) tests
       | None => []
       end
    ++ map (fun eg => "- " +:+ eg) (elems (ex_examples ex)) in
  Js.join (String "010" "") lines.

Definition blank_line : string := String "010" (String "010" "").

Definition impact_value (i : Impact) : string :=
  match i with
  | ImpactText s => s
  | ImpactFlags flags => Js.join "," (map fst (filter (fun kv => snd kv = true) flags))
  end.

Definition impact_truthy (o : option Impact) : bool :=
  match o with
  | Some (ImpactText s) => Js.truthy (Some s)
  | Some (ImpactFlags _) => true
  | None => false
  end.

Definition notification_props (i : nat) (n : Notification) : list Property :=
  [ fProp ("notification-" +:+ index1 i +:+ "-party") (n_party n);
    fProp ("notification-" +:+ index1 i +:+ "-method") (n_method n);
    fProp ("notification-" +:+ index1 i +:+ "-target") (n_target n) ].

Definition buildRequirementControl (reqId : string) (req : FRRRequirement)
    (applicability label : string) (termMap : gmap string string)
    (needsSuffix : bool) : Control :=
  let controlId :=
    if needsSuffix then Js.toLowerCase reqId +:+ "_" +:+ applicability
    else Js.toLowerCase reqId in
  let props :=
    [mkProp "label" label None; fProp "applicability" applicability]
    ++ when_truthy (req_fka req) (fProp "fka")
    ++ map (fProp "fka") (elems (req_fkas req))
    ++ map (fProp "affects") (elems (req_affects req)) in
  (* varies_by_level vs. flat requirement *)
  let '(props, parts) :=
    match req_varies_by_level req with
    | Some levels =>
        (props,
         [mkPart (Some (controlId +:+ "_stmt")) "statement" None None None
                 (Some (map (level_part controlId) levels))])
    | None =>
        let props := props
          ++ when_truthy (req_primary_key_word req) (fProp "keyword")
          ++ when_truthy (req_timeframe_type req) (fProp "timeframe-type")
          ++ match req_timeframe_num req with
             | Some n => [fProp "timeframe-num" (Js.String_of_number n)]
             | None => []
             end in
        (props,
         when_truthy (req_statement req) (fun statement =>
           let itemParts :=
             item_parts controlId "item" (req_following_information req)
             ++ item_parts controlId "bullet"
                  (req_following_information_bullets req) in
           mkPart (Some (controlId +:+ "_stmt")) "statement" None
                  (Some statement) None (nonempty itemParts)))
    end in
  (* guidance part (examples) *)
  let parts := parts ++
    match req_examples req with
    | Some ((_ :: _) as examples) =>
        [mkPart (Some (controlId +:+ "_guidance")) "guidance" (Some FEDRAMP_NS)
                (Some (Js.join blank_line (map example_prose examples)))
                None None]
    | _ => []
    end in
  (* assessment part (notes) *)
  let noteTexts := when_truthy (req_note req) id ++ elems (req_notes req) in
  let parts := parts ++
    match noteTexts with
    | [] => []
    | _ => [mkPart (Some (controlId +:+ "_assessment")) "assessment"
                   (Some FEDRAMP_NS) (Some (Js.join blank_line noteTexts))
                   None None]
    end in
  (* danger, impact and notification props *)
  let props := props
    ++ when_truthy (req_danger req) (fProp "danger")
    ++ match req_impact req with
       | Some i => if impact_truthy (req_impact req)
                   then [fProp "impact" (impact_value i)] else []
       | None => []
       end
    ++ concat (imap notification_props (elems (req_notification req))) in
  (* term links to back-matter resources *)
  let links := term_links termMap (req_terms req) in
  mkControl controlId
    (if Js.truthy (req_name req) then default reqId (req_name req) else reqId)
    (nonempty props)
    (match links with [] => None | _ => Some (deduplicateLinks links) end)
    (nonempty parts).

Definition authority_prose (auth : Authority) : string :=
  let lines :=
    ["**" +:+ auth_reference auth +:+ "**"; auth_description auth]
    ++ when_truthy (auth_delegation auth)
         (fun d => "_Delegation: " +:+ d +:+ "_") in
  Js.join (String "010" "") lines.

Definition buildProcessGroup (processKey : string) (process : FRRProcess)
    (termMap : gmap string string) : Group :=
  let groupId := Js.toLowerCase processKey in
  let duplicateIds := findDuplicateReqIds process in
  let controls :=
    map (fun '(applicability, label, reqId, req) =>
           buildRequirementControl reqId req applicability label termMap
             (bool_decide (reqId ∈ duplicateIds)))
        (process_entries process) in
  let props := [fProp "short-name" (pi_short_name (proc_info process))] in
  let parts :=
    when_truthy (pi_purpose (proc_info process))
      (fun purpose => mkPart None "overview" None (Some purpose) None None)
    ++ match pi_authority (proc_info process) with
       | Some ((_ :: _) as authority) =>
           [mkPart None "instruction" None
                   (Some (Js.join blank_line (map authority_prose authority)))
                   (Some [fProp "type" "authority"]) None]
       | _ => []
       end in
  mkGroup (Some groupId) (pi_name (proc_info process)) (Some props)
          (nonempty parts) (nonempty controls) None.

Definition buildIndicatorControl (termMap : gmap string string)
    (kv : string * KSIIndicator) : Control :=
  let '(indicatorId, indicator) := kv in
  let controlId := Js.toLowerCase indicatorId in
  let props := when_truthy (ind_fka indicator) (fProp "fka") in
  let parts :=
    [mkPart (Some (controlId +:+ "_stmt")) "statement" None
            (Some (ind_statement indicator)) None None] in
  let links :=
    map (fun nistControl =>
           mkLink ("#" +:+ nistControl) (Some "related")
                  (Some (Js.toUpperCase nistControl)))
        (elems (ind_controls indicator))
    ++ term_links termMap (ind_terms indicator) in
  mkControl controlId (ind_name indicator) (nonempty props)
    (match links with [] => None | _ => Some (deduplicateLinks links) end)
    (nonempty parts).

Definition buildKSIDomainGroup (domainKey : string) (domain : KSIDomain)
    (termMap : gmap string string) : Group :=
  let groupId := Js.toLowerCase (dom_id domain) in
  let controls := map (buildIndicatorControl termMap) (dom_indicators domain) in
  mkGroup (Some groupId) (dom_name domain)
          (Some [fProp "theme" (dom_theme domain)]) None
          (nonempty controls) None.

Definition buildResource (kv : string * FRDTermEntry) : BackMatterResource :=
  let '(termId, entry) := kv in
  let uuid := generateUUID NsFrdTerm termId in
  let citation :=
    match term_reference entry with
    | Some reference =>
        if Js.truthy (term_reference entry)
        then Some (mkCitation reference
                     (match term_reference_url entry with
                      | Some url =>
                          if Js.truthy (term_reference_url entry)
                          then Some [mkLink url None None] else None
                      | None => None
                      end))
        else None
    | None => None
    end in
  let props :=
    [fProp "term-id" termId] ++ when_truthy (term_fka entry) (fProp "fka") in
  mkResource uuid (Some (term_term entry)) (Some (term_definition entry))
             citation (Some props).

Definition buildBackMatter
    (frdData : list (string * list (string * FRDTermEntry))) : BackMatter :=
  mkBackMatter (part ← frdData; map buildResource (snd part)).

Definition fedramp_party (partyUUID : string) : Party :=
  mkParty partyUUID "organization"
    "Federal Risk and Authorization Management Program (FedRAMP)"
    (Some "FedRAMP") (Some [mkLink "https://www.fedramp.gov" (Some "homepage") None]).

Definition buildMetadata (now : string) (frmr : FRMRData) : Metadata :=
  let partyUUID := generateUUID NsParty "fedramp-pmo" in
  mkMetadata "FedRAMP Requirements and Recommendations (FRMR) Catalog"
    now (info_version (frmr_info frmr)) "1.2.0"
    [("publisher", "Document Publisher")]
    [fedramp_party partyUUID]
    [("publisher", [partyUUID])]
    (Some [ fProp "source-version" (info_version (frmr_info frmr));
            fProp "source-last-updated" (info_last_updated (frmr_info frmr)) ]).

Definition buildCatalog (now : string) (frmr : FRMRData) : Catalog :=
  let termMap := buildTermUUIDMap (frmr_FRD_data frmr) in
  let frrGroups :=
    map (fun '(processKey, process) => buildProcessGroup processKey process termMap)
        (frmr_FRR frmr) in
  let ksiDomainGroups :=
    map (fun '(domainKey, domain) => buildKSIDomainGroup domainKey domain termMap)
        (frmr_KSI frmr) in
  let ksiTopGroup :=
    mkGroup (Some "key-security-indicators") "Key Security Indicators"
            None None None (Some ksiDomainGroups) in
  let allGroups := frrGroups ++ [ksiTopGroup] in
  let backMatter := buildBackMatter (frmr_FRD_data frmr) in
  mkCatalog
    (generateUUID NsCatalog ("fedramp-frmr-" +:+ info_version (frmr_info frmr)))
    (buildMetadata now frmr) (Some allGroups) (Some backMatter).

(** ** oscal/mapping-builder.ts *)

Definition NIST_CATALOG_HREF : string :=
  "https://raw.githubusercontent.com/usnistgov/oscal-content/main/nist.gov/SP800-53/rev5/json/NIST_SP-800-53_rev5_catalog.json".
Definition FEDRAMP_CATALOG_HREF : string := "./fedramp-frmr-catalog.json".

(** [buildMetadata] of mapping-builder.ts (the catalog builder has its own). *)
Definition buildMappingMetadata (now : string) (frmr : FRMRData) : Metadata :=
  let partyUUID := generateUUID NsParty "fedramp-pmo" in
  mkMetadata "FedRAMP KSI to NIST SP 800-53 Rev 5 Mapping"
    now (info_version (frmr_info frmr)) "1.2.0"
    [("publisher", "Document Publisher")]
    [fedramp_party partyUUID]
    [("publisher", [partyUUID])]
    None.

Definition buildProvenance : Provenance :=
  mkProvenance "hybrid" "functional" "complete"
    ("Maps FedRAMP Key Security Indicators to NIST SP 800-53 Rev 5 controls. "
     +:+ "KSI indicators aggregate multiple NIST controls into security outcomes.").

(** The body of the inner loop: what one indicator pushes on [maps]. *)
Definition indicator_maps (kv : string * KSIIndicator) : list MapEntry :=
  let '(indicatorId, indicator) := kv in
  match ind_controls indicator with
  | None | Some [] => []       (* skip indicators without NIST control mappings *)
  | Some controls =>
      let targets := map (fun nistControl => mkIdRef "control" nistControl) controls in
      [mkMapEntry (generateUUID NsMappingEntry indicatorId) "superset-of"
                  [mkIdRef "control" (Js.toLowerCase indicatorId)] targets]
  end.

(** All indicators, domain by domain, in iteration order. *)
Definition all_indicators (frmr : FRMRData) : list (string * KSIIndicator) :=
  '(_, domain) ← frmr_KSI frmr; dom_indicators domain.

Definition buildMappingCollection (now : string) (frmr : FRMRData)
  : MappingCollection :=
  let maps := all_indicators frmr ≫= indicator_maps in
  let mapping :=
    mkMapping (generateUUID NsMapping "fedramp-ksi-to-nist")
      (mkResourceRef "catalog" FEDRAMP_CATALOG_HREF)
      (mkResourceRef "catalog" NIST_CATALOG_HREF)
      maps in
  mkMappingCollection
    (generateUUID NsMappingCollection
       ("fedramp-ksi-nist-" +:+ info_version (frmr_info frmr)))
    (buildMappingMetadata now frmr) buildProvenance [mapping].

(** ** build-oscal.ts: source validation

    [validateSource] probes the parsed JSON for sections that may be
    missing, so its input has optional sections. *)

Record RawFRMR := mkRaw {
  raw_version : option string;                (* data.info?.version *)
  raw_FRD_data : option (list (string * list (string * FRDTermEntry)));
                                              (* data.FRD?.data *)
  raw_FRR : option (list (string * FRRProcess));
  raw_KSI : option (list (string * KSIDomain)) }.

Definition of_typed (frmr : FRMRData) : RawFRMR :=
  mkRaw (Some (info_version (frmr_info frmr))) (Some (frmr_FRD_data frmr))
        (Some (frmr_FRR frmr)) (Some (frmr_KSI frmr)).

(** How the call ends: an uncaught [TypeError] ([Object.values(undefined)]),
    [process.exit(1)] after the violations are printed, or a normal return
    after printing the two counts. *)
Inductive Outcome :=
| TypeError
| Failed (errors : list string)
| Validated (reqCount domains : nat).

(** [!o || Object.keys(o).length === 0] *)
Definition missing_or_empty {A} (o : option (list A)) : bool :=
  match o with None | Some [] => true | Some _ => false end.

Definition lacks_statement (req : FRRRequirement) : bool :=
  negb (Js.truthy (req_statement req)) && negb (Js.defined (req_varies_by_level req)).

(** The body of the innermost loop. *)
Definition check_requirement (st : list string * nat)
    (e : string * string * string * FRRRequirement) : list string * nat :=
  let '(errors, reqCount) := st in
  let '(_, _, reqId, req) := e in
  let reqCount := S reqCount in
  if lacks_statement req
  then (errors ++ ["Requirement " +:+ reqId +:+ " has no statement or varies_by_level"],
        reqCount)
  else (errors, reqCount).

Definition all_requirements (frr : list (string * FRRProcess))
  : list (string * string * string * FRRRequirement) :=
  '(_, proc) ← frr; process_entries proc.

Definition section_errors (data : RawFRMR) : list string :=
  (if Js.truthy (raw_version data) then [] else ["Missing info.version"])
  ++ (if Js.defined (raw_FRD_data data) then [] else ["Missing FRD.data section"])
  ++ (if missing_or_empty (raw_FRR data) then ["Missing or empty FRR section"] else [])
  ++ (if missing_or_empty (raw_KSI data) then ["Missing or empty KSI section"] else []).

Definition validateSource (data : RawFRMR) : Outcome :=
  let errors := section_errors data in
  match raw_FRR data with
  | None => TypeError
  | Some frr =>
      let '(errors, reqCount) :=
        fold_left check_requirement (all_requirements frr) (errors, O) in
      match errors with
      | [] => Validated reqCount (length (default [] (raw_KSI data)))
      | _ => Failed errors
      end
  end.

(** ** A minimal source document

    One glossary term "Example Term" with the alias "ET", one requirement
    with a flat statement that references "ET", and one indicator with the
    single external control reference "ac-2". Every other name, key and
    text of the document is left open. *)

Module Minimal.
Section Document.

Variables (info : FRMRInfo) (pinfo : FRRProcessInfo).
Variables (termPartition termId definition : string).
Variables (processKey applicability label reqId statement : string).
Variables (domainKey domainId domainName theme : string).
Variables (indicatorId indicatorName indicatorStatement : string).

Definition term : FRDTermEntry :=
  mkTerm None "Example Term" (Some ["ET"]) definition None None.

Definition req : FRRRequirement :=
  mkReq None None None (Some statement) None (Some ["ET"])
        None None None None None None None None None None None None.

Definition indicator : KSIIndicator :=
  mkIndicator None indicatorName indicatorStatement (Some ["ac-2"]) None.

Definition process : FRRProcess :=
  mkProcess pinfo [(applicability, [(label, [(reqId, req)])])].

Definition domain : KSIDomain :=
  mkDomain domainId domainName theme [(indicatorId, indicator)].

Definition frmr : FRMRData :=
  mkFRMR info [(termPartition, [(termId, term)])]
         [(processKey, process)] [(domainKey, domain)].

End Document.

(** One instance, with every name chosen. *)
Definition example : FRMRData :=
  frmr (mkInfo "1.0.0" "2026-01-01") (mkProcessInfo "Example Process" "EXP" None None)
       "both" "FRD-ET" "A term used as an example."
       "EXP" "both" "CSO" "EXP-CSO-DOC" "Providers MUST document every ET."
       "EX" "KSI-EX" "Example domain" "Example theme"
       "KSI-EX-01" "Example indicator" "Accounts are managed.".

End Minimal.

(** ** Observations on the produced documents *)

(** Controls of a group and of its sub-groups, in document order. *)
Fixpoint group_controls (g : Group) : list Control :=
  match g with
  | mkGroup _ _ _ _ controls groups =>
      elems controls
        ++ match groups with
           | Some gs => flat_map group_controls gs
           | None => []
           end
  end.

(** Group and control ids of a group, in document order. *)
Fixpoint group_ids (g : Group) : list string :=
  match g with
  | mkGroup gid _ _ _ controls groups =>
      option_list gid ++ map ctl_id (elems controls)
        ++ match groups with
           | Some gs => flat_map group_ids gs
           | None => []
           end
  end.

Definition catalog_controls (c : Catalog) : list Control :=
  flat_map group_controls (elems (cat_groups c)).

Definition catalog_ids (c : Catalog) : list string :=
  flat_map group_ids (elems (cat_groups c)).

Definition catalog_resources (c : Catalog) : list BackMatterResource :=
  match cat_back_matter c with Some bm => resources bm | None => [] end.

Definition collection_maps (mc : MappingCollection) : list MapEntry :=
  flat_map maps (mc_mappings mc).

(** The top-level parts of a control that are named "statement". *)
Definition statement_parts (c : Control) : list Part :=
  filter (fun p => part_name p = "statement") (elems (ctl_parts c)).

(** The links of a control with a given target and relation. *)
Definition links_to (href rel : string) (c : Control) : list Link :=
  filter (fun l => link_href l = href ∧ link_rel l = Some rel)
         (elems (ctl_links c)).

(** The term references of every requirement, then of every indicator, in
    the order in which [buildCatalog] turns them into controls. *)
Definition source_term_refs (frmr : FRMRData) : list (list string) :=
  map (fun e => elems (req_terms (snd e))) (all_requirements (frmr_FRR frmr))
  ++ map (fun kv => elems (ind_terms (snd kv))) (all_indicators frmr).

(** A requirement stripped of everything that belongs to the flat case. *)
Definition without_flat_fields (req : FRRRequirement) : FRRRequirement :=
  mkReq (req_fka req) (req_fkas req) (req_name req) None None (req_terms req)
        (req_affects req) (req_notes req) (req_note req) (req_examples req)
        None None (req_notification req) None None (req_varies_by_level req)
        (req_impact req) (req_danger req).

(** ** Notions used in the statements *)

(** *** Generator and validator *)

(** The nine sub-namespaces, as a run of the generator computes them. *)
Definition NAMESPACES_literal (ns : Namespace) : string :=
  match ns with
  | NsCatalog => "222713d0-ffb3-5641-9f2f-2732a8837b1c"
  | NsFrdTerm => "275f016d-8871-508e-b244-79d5a1ac15b7"
  | NsFrrControl => "5b9eb5a4-b4f6-5597-90f5-4a11b64919e7"
  | NsKsiControl => "80139e5c-19ef-54c8-ab5d-84cc41885040"
  | NsMappingCollection => "401c0bb9-d895-5ea6-a4a1-c6b89a00452b"
  | NsMappingEntry => "dc6979d1-b4bd-5a7c-ba6c-2628c05332a9"
  | NsParty => "242401f3-dd86-53c1-b60c-7c1750a7b974"
  | NsGroup => "fd143176-89f0-528c-9d7c-d4c6f4e10787"
  | NsMapping => "37dfbb20-657f-5dad-85e9-f218614a11ce"
  end.

Definition requirement_error (reqId : string) : string :=
  "Requirement " +:+ reqId +:+ " has no statement or varies_by_level".

(** *** A requirement control, field by field *)

(** The three blocks [buildRequirementControl] pushes on [parts], and its
    id, named so that the control can be read field by field. *)
Definition control_id (reqId applicability : string) (needsSuffix : bool) : string :=
  if needsSuffix then Js.toLowerCase reqId +:+ "_" +:+ applicability
  else Js.toLowerCase reqId.

Definition statement_block (controlId : string) (req : FRRRequirement) : list Part :=
  match req_varies_by_level req with
  | Some levels =>
      [mkPart (Some (controlId +:+ "_stmt")) "statement" None None None
              (Some (map (level_part controlId) levels))]
  | None =>
      when_truthy (req_statement req) (fun statement =>
        mkPart (Some (controlId +:+ "_stmt")) "statement" None (Some statement) None
          (nonempty
             (item_parts controlId "item" (req_following_information req)
              ++ item_parts controlId "bullet"
                   (req_following_information_bullets req))))
  end.

Definition guidance_block (controlId : string) (req : FRRRequirement) : list Part :=
  match req_examples req with
  | Some ((_ :: _) as examples) =>
      [mkPart (Some (controlId +:+ "_guidance")) "guidance" (Some FEDRAMP_NS)
              (Some (Js.join blank_line (map example_prose examples))) None None]
  | _ => []
  end.

Definition assessment_block (controlId : string) (req : FRRRequirement) : list Part :=
  let noteTexts := when_truthy (req_note req) id ++ elems (req_notes req) in
  match noteTexts with
  | [] => []
  | _ =>
      [mkPart (Some (controlId +:+ "_assessment")) "assessment" (Some FEDRAMP_NS)
              (Some (Js.join blank_line noteTexts)) None None]
  end.

(** *** Entries of a process *)

Definition entry_applicability (e : string * string * string * FRRRequirement) : string :=
  fst (fst (fst e)).
Definition entry_key (e : string * string * string * FRRRequirement) : string :=
  snd (fst e).

(** The entries of a process that carry the key [k]. *)
Definition occurrences (k : string) (process : FRRProcess)
  : list (string * string * string * FRRRequirement) :=
  filter (fun e => entry_key e = k) (process_entries process).

(** The control [buildProcessGroup] pushes for one entry. *)
Definition requirement_control (process : FRRProcess) (termMap : gmap string string)
    (e : string * string * string * FRRRequirement) : Control :=
  let '(applicability, label, reqId, req) := e in
  buildRequirementControl reqId req applicability label termMap
    (bool_decide (reqId ∈ findDuplicateReqIds process)).

Definition process_keys (process : FRRProcess) : list string :=
  map entry_key (process_entries process).

(** *** Links and glossary *)

(** The builders only produce links whose relation is "term" or "related". *)
Definition builder_link (l : Link) : Prop :=
  link_rel l = Some "term" ∨ link_rel l = Some "related".

(** All glossary entries of the source, partition by partition. *)
Definition all_terms (frdData : list (string * list (string * FRDTermEntry)))
  : list (string * FRDTermEntry) :=
  frdData ≫= snd.

Definition term_uuids (frdData : list (string * list (string * FRDTermEntry)))
  : list string :=
  map (fun kv => generateUUID NsFrdTerm (fst kv)) (all_terms frdData).

(** The controls of the catalog: one per requirement entry, process by
    process, then one per indicator, domain by domain. *)
Definition source_controls (frmr : FRMRData) : list Control :=
  let termMap := buildTermUUIDMap (frmr_FRD_data frmr) in
  ('(_, process) ← frmr_FRR frmr;
     map (requirement_control process termMap) (process_entries process))
  ++ map (buildIndicatorControl termMap) (all_indicators frmr).

(** *** Source keys and ids *)

Fixpoint contains (c : ascii) (s : string) : bool :=
  match s with
  | EmptyString => false
  | String a s' => Ascii.eqb a c || contains c s'
  end.

Definition no_underscore (s : string) : Prop := contains "_" s = false.

(** A string of ASCII characters only: every byte is below 128. On such
    strings [Js.toLowerCase] is the [toLowerCase] of the source. *)
Fixpoint all_ascii (s : string) : bool :=
  match s with
  | EmptyString => true
  | String c s' => (nat_of_ascii c <? 128)%nat && all_ascii s'
  end.

Definition ascii_only (s : string) : Prop := all_ascii s = true.

(** The part of a string before its first underscore. *)
Fixpoint before_underscore (s : string) : string :=
  match s with
  | EmptyString => EmptyString
  | String a s' =>
      if Ascii.eqb a "_" then EmptyString else String a (before_underscore s')
  end.

(** No requirement key recurs within one applicability partition of the
    process: the (applicability, key) pairs of its entries are pairwise
    distinct. *)
Definition distinct_in_partition (process : FRRProcess) : Prop :=
  NoDup (map (fun e => (entry_applicability e, entry_key e))
             (process_entries process)).

(** The association lists of a process stand for JSON objects: at every
    level the keys are pairwise distinct. *)
Definition process_objects (process : FRRProcess) : Prop :=
  NoDup (map fst (proc_data process))
  ∧ Forall (fun part =>
              NoDup (map fst (snd part))
              ∧ Forall (fun lab => NoDup (map fst (snd lab))) (snd part))
           (proc_data process).

(** The same for a whole source document. *)
Definition json_objects (frmr : FRMRData) : Prop :=
  NoDup (map fst (frmr_FRD_data frmr))
  ∧ Forall (fun part => NoDup (map fst (snd part))) (frmr_FRD_data frmr)
  ∧ NoDup (map fst (frmr_FRR frmr))
  ∧ Forall (fun kv => process_objects (snd kv)) (frmr_FRR frmr)
  ∧ NoDup (map fst (frmr_KSI frmr))
  ∧ Forall (fun kv => NoDup (map fst (dom_indicators (snd kv)))) (frmr_KSI frmr).

(** Exactly one of the flat statement and the level variants. *)
Definition one_statement_form (req : FRRRequirement) : Prop :=
  xorb (Js.truthy (req_statement req)) (Js.defined (req_varies_by_level req)) = true.

(** The invariants the source data is expected to satisfy. *)
Definition source_invariants (frmr : FRMRData) : Prop :=
  Forall (fun kv =>
            distinct_in_partition (snd kv)
            ∧ Forall (fun e => one_statement_form (snd e)) (process_entries (snd kv)))
         (frmr_FRR frmr).

(** The keys ids are derived from, in document order: per process its key
    and its requirement keys (each once), the fixed id of the indicators
    group, and per domain its id and its indicator keys. *)
Definition source_keys (frmr : FRMRData) : list string :=
  ('(processKey, process) ← frmr_FRR frmr;
     processKey :: remove_dups (process_keys process))
  ++ "key-security-indicators"
     :: ('(_, domain) ← frmr_KSI frmr;
           dom_id domain :: map fst (dom_indicators domain)).

(** The ids of one process group and of one domain group. *)
Definition process_ids (termMap : gmap string string) (kv : string * FRRProcess)
  : list string :=
  Js.toLowerCase (fst kv)
  :: map (fun e => ctl_id (requirement_control (snd kv) termMap e))
         (process_entries (snd kv)).

Definition domain_ids (kv : string * KSIDomain) : list string :=
  Js.toLowerCase (dom_id (snd kv))
  :: map (fun ind => Js.toLowerCase (fst ind)) (dom_indicators (snd kv)).

Definition process_key_block (kv : string * FRRProcess) : list string :=
  map Js.toLowerCase (fst kv :: remove_dups (process_keys (snd kv))).

Definition indicator_key_block (frmr : FRMRData) : list string :=
  map Js.toLowerCase
    ("key-security-indicators"
     :: ('(_, domain) ← frmr_KSI frmr;
           dom_id domain :: map fst (dom_indicators domain))).

(** ** Sample documents *)

Module Collision.

Definition req : FRRRequirement :=
  mkReq None None None (Some "Providers MUST keep records.") None None None None
        None None None None None None None None None None.

Definition info : FRRProcessInfo := mkProcessInfo "Example Process" "EXP" None None.

(** One key under the partitions "Both" and "20x". *)
Definition mixed_case : FRRProcess :=
  mkProcess info [ ("Both", [("CSO", [("REQ-1", req)])]);
                   ("20x", [("CSO", [("REQ-1", req)])]) ].

(** One key under two labels of the single partition "both". *)
Definition two_labels : FRRProcess :=
  mkProcess info [ ("both", [("CSO", [("REQ-1", req)]); ("TRC", [("REQ-1", req)])]) ].

Definition ids (process : FRRProcess) : list string :=
  map ctl_id (elems (grp_controls (buildProcessGroup "EXP" process ∅))).

End Collision.

Module IdClash.

Definition req : FRRRequirement :=
  mkReq None None None (Some "Providers MUST keep records.") None None None None
        None None None None None None None None None None.

Definition info : FRRProcessInfo := mkProcessInfo "Example Process" "EXP" None None.

(** A complete document around the given processes: one glossary term and
    one indicator domain. *)
Definition document (frr : list (string * FRRProcess)) : FRMRData :=
  mkFRMR (mkInfo "1.0.0" "2026-01-01")
         [("both", [("FRD-ET", mkTerm None "Example Term" (Some ["ET"])
                                      "A term used as an example." None None)])]
         frr
         [("EX", mkDomain "KSI-EX" "Example domain" "Example theme"
                   [("KSI-EX-01", mkIndicator None "Example indicator"
                                    "Accounts are managed." (Some ["ac-2"]) None)])].

(** The same requirement key in two processes. *)
Definition two_processes : FRMRData :=
  document [ ("AAA", mkProcess info [("both", [("CSO", [("REQ-1", req)])])]);
             ("BBB", mkProcess info [("both", [("CSO", [("REQ-1", req)])])]) ].

(** A key that spells the suffixed id of another key. *)
Definition suffix_lookalike : FRMRData :=
  document [ ("AAA", mkProcess info
                [ ("both", [("CSO", [("REQ-1", req)])]);
                  ("20x", [("CSO", [("REQ-1", req); ("REQ-1_both", req)])]) ]) ].

(** Two keys that differ only by case. *)
Definition case_variants : FRMRData :=
  document [ ("AAA", mkProcess info
                [("both", [("CSO", [("REQ-1", req); ("req-1", req)])])]) ].

End IdClash.

Module Sample.

Definition bare : FRRRequirement :=
  mkReq None None None None None None None None None None None None None None
        None None None None.

Definition flat : FRRRequirement :=
  mkReq None None (Some "Keep records") (Some "Providers MUST keep records.")
        (Some "MUST") (Some ["Example Term"; "ET"]) None None None None
        (Some ["daily"; "weekly"]) (Some ["on request"]) None (Some "bizdays")
        (Some 3) None None None.

Definition levels : list (string * LevelData) :=
  [ ("low", mkLevel "Providers SHOULD keep records." "SHOULD" None None);
    ("high", mkLevel "Providers MUST keep records." "MUST" (Some "days") (Some 7)) ].

Definition by_level : FRRRequirement :=
  mkReq None None (Some "Keep records") None None None None None None None
        None None None None None (Some levels) None None.

(** Both statement forms at once. *)
Definition both : FRRRequirement :=
  mkReq None None (Some "Keep records") (Some "Providers MUST keep records.")
        (Some "MUST") None None None None None
        (Some ["daily"; "weekly"]) (Some ["on request"]) None (Some "bizdays")
        (Some 3) (Some levels) None None.

Definition info : FRRProcessInfo := mkProcessInfo "Example Process" "EXP" None None.

(** "REQ-1" under two partitions, "REQ-2" once. *)
Definition process : FRRProcess :=
  mkProcess info [ ("both", [("CSO", [("REQ-1", flat)])]);
                   ("20x", [("CSO", [("REQ-1", by_level); ("REQ-2", flat)])]) ].

(** No indicators section, and one requirement without any statement. *)
Definition incomplete_frr : list (string * FRRProcess) :=
  [("EXP", mkProcess info [("both", [("CSO", [("REQ-1", flat); ("REQ-2", bare)])])])].

Definition incomplete : RawFRMR :=
  mkRaw (Some "1.0.0") (Some []) (Some incomplete_frr) None.

(** A complete document around [process]. *)
Definition document : FRMRData := IdClash.document [("EXP", process)].

Definition index : gmap string string :=
  buildTermUUIDMap (frmr_FRD_data document).

Definition indicator : KSIIndicator :=
  mkIndicator None "Example indicator" "Accounts are managed."
              (Some ["ac-2"]) (Some ["Example Term"; "ET"]).

Definition term_uuid : string := "2a10b8bb-9849-5e07-8f31-7450ad835598".

End Sample.

(** ** Notions used in the further properties *)

(** The texts a glossary entry registers in the index: its display name
    and its aliases, lowercased. *)
Definition registered_texts (entry : FRDTermEntry) : list string :=
  Js.toLowerCase (term_term entry) :: map Js.toLowerCase (elems (term_alts entry)).

(** The last glossary entry, in iteration order, that registers [k]. *)
Definition last_registering (k : string)
    (frdData : list (string * list (string * FRDTermEntry)))
  : option (string * FRDTermEntry) :=
  last (filter (fun kv => k ∈ registered_texts (snd kv)) (all_terms frdData)).

(** The counts [main] prints after the builds (build-oscal.ts). *)
Definition catalogControlCount (c : Catalog) : nat :=
  fold_left
    (fun sum g =>
       let directControls := length (elems (grp_controls g)) in
       let subGroupControls :=
         fold_left (fun s sg => s + length (elems (grp_controls sg)))%nat
                   (elems (grp_groups g)) O in
       (sum + directControls + subGroupControls)%nat)
    (elems (cat_groups c)) O.

Definition resourceCount (c : Catalog) : nat :=
  match cat_back_matter c with Some bm => length (resources bm) | None => O end.

Definition mapCount (mc : MappingCollection) : nat :=
  match mc_mappings mc with
  | m :: _ => length (maps m)
  | [] => O
  end.

(** An indicator that declares at least one external control. *)
Definition has_controls (kv : string * KSIIndicator) : Prop :=
  elems (ind_controls (snd kv)) ≠ [].

(** The ids of a part and of the parts nested in it, in document order. *)
Fixpoint part_ids (p : Part) : list string :=
  match p with
  | mkPart pid _ _ _ _ kids =>
      option_list pid
        ++ match kids with
           | Some ks => flat_map part_ids ks
           | None => []
           end
  end.

Definition control_part_ids (c : Control) : list string :=
  flat_map part_ids (elems (ctl_parts c)).

(** What [buildRequirementControl] appends to the control id to name the
    parts of a requirement: the statement, its per-level or follow-up
    children, the guidance and the assessment. *)
Definition statement_suffixes (req : FRRRequirement) : list string :=
  match req_varies_by_level req with
  | Some levels => "_stmt" :: map (fun lv => "_stmt_" +:+ fst lv) levels
  | None =>
      if Js.truthy (req_statement req)
      then "_stmt"
           :: map (fun i => "_stmt_item_" +:+ index1 i)
                  (seq 0 (length (elems (req_following_information req))))
           ++ map (fun i => "_stmt_bullet_" +:+ index1 i)
                  (seq 0 (length (elems (req_following_information_bullets req))))
      else []
  end.

Definition part_suffixes (req : FRRRequirement) : list string :=
  statement_suffixes req
  ++ (match req_examples req with Some (_ :: _) => ["_guidance"] | _ => [] end)
  ++ (match when_truthy (req_note req) id ++ elems (req_notes req) with
      | [] => []
      | _ => ["_assessment"]
      end).

(** The two halves of [uuidV5]: the sixteen bytes (the hash with its
    version and variant bits set), and their hyphenated hex form. *)
Definition uuid_bytes (namespace name : string) : list Z :=
  let nsBytes := Hex.decode (remove_hyphens namespace) in
  let hash := Sha1.digest (nsBytes ++ utf8 name) in
  let hash := set_byte 6 (fun b => Z.lor (Z.land b 0x0f) 0x50) hash in
  let hash := set_byte 8 (fun b => Z.lor (Z.land b 0x3f) 0x80) hash in
  take 16 hash.

Definition uuid_format (bytes : list Z) : string :=
  let hex := Hex.encode bytes in
  Js.join "-"
    [ Js.substring 0 8 hex; Js.substring 8 12 hex; Js.substring 12 16 hex;
      Js.substring 16 20 hex; Js.substring 20 32 hex ].

Definition is_byte (b : Z) : Prop := 0 <= b < 256.

(** A lowercase hexadecimal digit. *)
Definition is_hex (c : ascii) : bool :=
  let n := nat_of_ascii c in
  ((48 <=? n)%nat && (n <=? 57)%nat) || ((97 <=? n)%nat && (n <=? 102)%nat).

Fixpoint all_hex (s : string) : bool :=
  match s with
  | EmptyString => true
  | String c s' => is_hex c && all_hex s'
  end.

Definition char_at (i : nat) (s : string) (ok : ascii → bool) : bool :=
  match String.get i s with
  | Some c => ok c
  | None => false
  end.

(** The surface form of a version-5 UUID: 8-4-4-4-12 lowercase hex digits
    between hyphens, version digit 5, variant digit 8, 9, a or b. *)
Definition is_uuid_v5 (s : string) : bool :=
  (String.length s =? 36)%nat
  && all_hex (String.substring 0 8 s)
  && char_at 8 s (Ascii.eqb "-")
  && all_hex (String.substring 9 4 s)
  && char_at 13 s (Ascii.eqb "-")
  && char_at 14 s (Ascii.eqb "5")
  && all_hex (String.substring 15 3 s)
  && char_at 18 s (Ascii.eqb "-")
  && char_at 19 s (fun c => Ascii.eqb c "8" || Ascii.eqb c "9"
                            || Ascii.eqb c "a" || Ascii.eqb c "b")
  && all_hex (String.substring 20 3 s)
  && char_at 23 s (Ascii.eqb "-")
  && all_hex (String.substring 24 12 s).

(** The props of a control that carry a given name. *)
Definition props_named (name : string) (c : Control) : list Property :=
  filter (fun p => prop_name p = name) (elems (ctl_props c)).

(** * Properties *)

(** Closed goals about sample data are settled by evaluation: equations
    directly, decidable propositions through their decision procedure. *)
Lemma decide_yes (P : Prop) `{!Decision P} : bool_decide P = true → P.
Proof. apply bool_decide_eq_true_1. Qed.

Ltac by_evaluation :=
  first [ vm_compute; reflexivity
        | apply (decide_yes _); vm_compute; reflexivity ].

(** ** Identifier generator *)

(** RFC 4122 test vector: uuid5(NAMESPACE_DNS, "python.org"). *)
Example uuidV5_python_org :
  uuidV5 DNS_NAMESPACE "python.org" = "886313e1-3b8a-5372-9b90-0c9aee199e5d".
Proof. vm_compute. reflexivity. Qed.

(** A name long enough for the hash to take a second block. *)
Example uuidV5_two_blocks :
  uuidV5 DNS_NAMESPACE
    "fedramp-frmr-catalog-with-a-name-long-enough-to-need-a-second-block-of-the-hash"
  = "703563c4-ca7c-5b93-bb5a-44cbb627aedc".
Proof. vm_compute. reflexivity. Qed.

Lemma NAMESPACES_value ns : NAMESPACES ns = NAMESPACES_literal ns.
Proof. destruct ns; vm_compute; reflexivity. Qed.

(** Different tags have different sub-namespaces. *)
Lemma NAMESPACES_inj a b : NAMESPACES a = NAMESPACES b → a = b.
Proof.
  rewrite !NAMESPACES_value. destruct a, b; intros H; try reflexivity; discriminate H.
Qed.

Example generateUUID_term : generateUUID NsFrdTerm "FRD-ET" = Sample.term_uuid.
Proof. vm_compute. reflexivity. Qed.

(** Whether two tags can ever give the same identifier for one key is a
    question about SHA-1 truncated to 122 bits over all key strings; it is
    not settled here. *)

(** ** The builders on sample data *)

Example index1_values : (index1 0, index1 9) = ("1", "10").
Proof. vm_compute. reflexivity. Qed.

Example String_of_number_values :
  (Js.String_of_number 7, Js.String_of_number (-12)) = ("7", "-12").
Proof. vm_compute. reflexivity. Qed.

Example example_prose_format :
  example_prose (mkExample "EX-1" (Some ["a"; "b"]) (Some ["c"]))
  = Js.join (String "010" "") ["**EX-1**"; "Key tests:"; "- a"; "- b"; "- c"].
Proof. vm_compute. reflexivity. Qed.

Example sample_flat_control :
  let c := buildRequirementControl "REQ-2" Sample.flat "20x" "CSO" Sample.index false in
  ctl_id c = "req-2"
  ∧ map prop_name (elems (ctl_props c))
    = ["label"; "applicability"; "keyword"; "timeframe-type"; "timeframe-num"]
  ∧ ctl_links c
    = Some [mkLink ("#" +:+ Sample.term_uuid) (Some "term") (Some "Example Term")]
  ∧ map part_id (elems (ctl_parts c)) = [Some "req-2_stmt"]
  ∧ map part_id (flat_map (fun p => elems (part_parts p)) (elems (ctl_parts c)))
    = [Some "req-2_stmt_item_1"; Some "req-2_stmt_item_2"; Some "req-2_stmt_bullet_1"].
Proof. vm_compute. repeat split. Qed.

Example sample_level_control :
  let c := buildRequirementControl "REQ-1" Sample.by_level "20x" "CSO" Sample.index true in
  ctl_id c = "req-1_20x"
  ∧ map prop_name (elems (ctl_props c)) = ["label"; "applicability"]
  ∧ map part_id (elems (ctl_parts c)) = [Some "req-1_20x_stmt"]
  ∧ map part_id (flat_map (fun p => elems (part_parts p)) (elems (ctl_parts c)))
    = [Some "req-1_20x_stmt_low"; Some "req-1_20x_stmt_high"].
Proof. vm_compute. repeat split. Qed.

Example sample_catalog_ids :
  catalog_ids (buildCatalog "" Sample.document)
  = [ "exp"; "req-1_both"; "req-1_20x"; "req-2";
      "key-security-indicators"; "ksi-ex"; "ksi-ex-01" ].
Proof. vm_compute. reflexivity. Qed.

(** Without a requirements section the validator does not get to report:
    [Object.values(data.FRR)] throws. With an empty one every section
    violation is collected. *)
Example validateSource_without_sections :
  validateSource (mkRaw None None None None) = TypeError
  ∧ validateSource (mkRaw None None (Some []) None)
    = Failed [ "Missing info.version"; "Missing FRD.data section";
               "Missing or empty FRR section"; "Missing or empty KSI section" ].
Proof. vm_compute. split; reflexivity. Qed.

Example validateSource_minimal :
  validateSource (of_typed Minimal.example) = Validated 1 1.
Proof. vm_compute. reflexivity. Qed.

(** ** Mapping builder *)

Lemma concat_singletons_bind {A B} (f : A → list B) (l : list A) :
  l ≫= f = concat (map f l).
Proof. induction l as [|x l IH]; [done|]. cbn. by rewrite IH. Qed.

Lemma collection_maps_build now frmr :
  collection_maps (buildMappingCollection now frmr)
  = all_indicators frmr ≫= indicator_maps.
Proof. unfold collection_maps; cbn. by rewrite app_nil_r. Qed.

(** The indicators the builders walk through are those of the domains of
    the source, domain by domain. *)
Lemma all_indicators_domains frmr :
  all_indicators frmr
  = flat_map (fun domain => dom_indicators (snd domain)) (frmr_KSI frmr).
Proof.
  unfold all_indicators.
  induction (frmr_KSI frmr) as [|[dk domain] ksi IH]; [done|].
  cbn [mbind list_bind flat_map snd]. by rewrite <- IH.
Qed.

(** C4. Skip rule of the mapping builder: the map entries of the collection
    are, over the indicators of the domains of the source, domain by domain
    and indicator by indicator in source order, nothing for an indicator
    whose control-reference list is absent or empty, and for an indicator
    with N >= 1 references exactly one entry with relationship
    "superset-of", one source whose id-ref is the lowercased indicator key,
    and N targets whose id-refs are the declared identifiers unchanged. *)
Theorem C4_mapping_skip_rule now frmr :
  ∃ per : list (list MapEntry),
    collection_maps (buildMappingCollection now frmr) = concat per
    ∧ Forall2
        (fun (kv : string * KSIIndicator) (es : list MapEntry) =>
           match ind_controls (snd kv) with
           | None | Some [] => es = []
           | Some cs =>
               ∃ e, es = [e]
                 ∧ me_relationship e = "superset-of"
                 ∧ me_sources e = [mkIdRef "control" (Js.toLowerCase (fst kv))]
                 ∧ length (me_targets e) = length cs
                 ∧ map id_ref (me_targets e) = cs
           end)
        (flat_map (fun domain => dom_indicators (snd domain)) (frmr_KSI frmr))
        per.
Proof.
  exists (map indicator_maps (all_indicators frmr)). split.
  - rewrite collection_maps_build. apply concat_singletons_bind.
  - rewrite <- all_indicators_domains.
    induction (all_indicators frmr) as [|[k ind] l IH]; cbn; constructor; [|exact IH].
    cbn. destruct (ind_controls ind) as [[|c cs]|]; cbn; try done.
    eexists; split; [reflexivity|]. cbn. split_and!; try done.
    + by rewrite length_map.
    + rewrite map_map. cbn. by rewrite map_id.
Qed.

(** ** Source validation *)

Lemma check_requirement_fold es errors n :
  fold_left check_requirement es (errors, n)
  = (errors ++ map (fun e => requirement_error (snd (fst e)))
                   (filter (fun e => lacks_statement (snd e) = true) es),
     (n + length es)%nat).
Proof.
  revert errors n. induction es as [|[[[a l] k] r] es IH]; intros errors n; cbn.
  - by rewrite app_nil_r, Nat.add_0_r.
  - destruct (lacks_statement r) eqn:E.
    + rewrite decide_True by done. rewrite IH. cbn.
      rewrite <- app_assoc. cbn. f_equal. lia.
    + rewrite decide_False by done. rewrite IH. f_equal. lia.
Qed.

(** What [validateSource] reports, whenever the requirements section exists:
    the section violations followed by one violation per statement-less
    requirement, in iteration order. *)
Lemma validateSource_errors data frr :
  raw_FRR data = Some frr →
  let errors :=
    section_errors data
    ++ map (fun e => requirement_error (snd (fst e)))
           (filter (fun e => lacks_statement (snd e) = true) (all_requirements frr)) in
  validateSource data
  = match errors with
    | [] => Validated (length (all_requirements frr))
                      (length (default [] (raw_KSI data)))
    | _ => Failed errors
    end.
Proof.
  intros HF. unfold validateSource. rewrite HF.
  rewrite check_requirement_fold. cbn. reflexivity.
Qed.

(** C5. A document with its version and glossary in place, whose indicators
    section is missing (or empty) and in which exactly one requirement has
    neither a flat statement nor level variants, fails validation with
    exactly two violations: the one for the indicators section and the one
    naming that requirement. *)
Theorem C5_validator_collects_both data frr applicability label reqId req :
  Js.truthy (raw_version data) = true →
  Js.defined (raw_FRD_data data) = true →
  raw_FRR data = Some frr →
  missing_or_empty (raw_KSI data) = true →
  filter (fun e => lacks_statement (snd e) = true) (all_requirements frr)
    = [(applicability, label, reqId, req)] →
  validateSource data
  = Failed [ "Missing or empty KSI section";
             "Requirement " +:+ reqId +:+ " has no statement or varies_by_level" ].
Proof.
  intros Hv Hd HF HK Hone.
  rewrite (validateSource_errors data frr HF). cbn zeta.
  unfold section_errors. rewrite Hv, Hd, HK, HF, Hone.
  destruct frr as [|p frr]; [discriminate Hone|]. reflexivity.
Qed.

(** ** Requirement controls: statement shape *)

Lemma elems_nonempty {A} (xs : list A) : elems (nonempty xs) = xs.
Proof. by destruct xs. Qed.

Section RequirementControl.
Context (reqId : string) (req : FRRRequirement) (applicability label : string)
        (termMap : gmap string string) (needsSuffix : bool).

Let c := buildRequirementControl reqId req applicability label termMap needsSuffix.

Lemma ctl_id_build : ctl_id c = control_id reqId applicability needsSuffix.
Proof.
  subst c. unfold buildRequirementControl.
  by destruct (req_varies_by_level req).
Qed.

Lemma ctl_parts_build :
  ctl_parts c
  = nonempty ((statement_block (ctl_id c) req ++ guidance_block (ctl_id c) req)
              ++ assessment_block (ctl_id c) req).
Proof.
  rewrite ctl_id_build. subst c.
  unfold buildRequirementControl, statement_block.
  by destruct (req_varies_by_level req).
Qed.

Lemma ctl_links_build :
  ctl_links c
  = let links := term_links termMap (req_terms req) in
    match links with
    | [] => None
    | _ => Some (deduplicateLinks links)
    end.
Proof.
  subst c. unfold buildRequirementControl.
  by destruct (req_varies_by_level req).
Qed.

Lemma guidance_not_statement cid :
  filter (fun p => part_name p = "statement") (guidance_block cid req) = [].
Proof. unfold guidance_block. by destruct (req_examples req) as [[|]|]. Qed.

Lemma assessment_not_statement cid :
  filter (fun p => part_name p = "statement") (assessment_block cid req) = [].
Proof.
  unfold assessment_block.
  by destruct (when_truthy (req_note req) id ++ elems (req_notes req)).
Qed.

Lemma statement_block_all_statement cid :
  filter (fun p => part_name p = "statement") (statement_block cid req)
  = statement_block cid req.
Proof.
  unfold statement_block.
  destruct (req_varies_by_level req); [done|].
  by destruct (req_statement req) as [[|]|].
Qed.

(** The "statement" parts of the control are exactly its statement block. *)
Lemma requirement_statement_parts :
  statement_parts c = statement_block (ctl_id c) req.
Proof.
  unfold statement_parts. rewrite ctl_parts_build, elems_nonempty.
  rewrite !filter_app, guidance_not_statement, assessment_not_statement.
  by rewrite !app_nil_r, statement_block_all_statement.
Qed.

End RequirementControl.

Lemma map_imap_indep {A B C} (g : B → C) (h : A → C) (f : nat → A → B) (l : list A) :
  (∀ i x, g (f i x) = h x) → map g (imap f l) = map h l.
Proof.
  revert f. induction l as [|x l IH]; intros f Hf; [done|].
  cbn. rewrite Hf. f_equal. apply IH. intros i y. apply Hf.
Qed.

Lemma item_parts_prose cid kind items :
  map part_prose (item_parts cid kind items) = map Some (elems items).
Proof. unfold item_parts. by apply map_imap_indep. Qed.

Lemma item_parts_bare cid kind items :
  Forall (fun kid => part_name kid = "item" ∧ part_props kid = None
                     ∧ part_parts kid = None)
         (item_parts cid kind items).
Proof.
  unfold item_parts. generalize (elems items) as l. intros l.
  apply Forall_forall. intros kid Hin.
  apply elem_of_lookup_imap in Hin as (i & prose & -> & _). done.
Qed.

Lemma level_parts_shape cid levels :
  Forall2
    (fun (lv : string * LevelData) kid =>
       part_name kid = "item"
       ∧ part_id kid = Some (cid +:+ "_stmt_" +:+ fst lv)
       ∧ part_prose kid = Some (lvl_statement (snd lv))
       ∧ ∃ ps, part_props kid = Some ps ∧ fProp "level" (fst lv) ∈ ps)
    levels (map (level_part cid) levels).
Proof.
  induction levels as [|[level data] levels IH]; cbn; constructor; [|exact IH].
  cbn. split_and!; try done. eexists; split; [reflexivity|]. set_solver.
Qed.

(** C3. A requirement with level variants yields exactly one "statement"
    part, without prose, whose children are one "item" part per level, in
    order, carrying that level's tag and prose. A requirement with only a
    flat statement yields exactly one "statement" part carrying the
    statement prose, whose children (if any) are the follow-up items and
    carry no property at all, so none is a per-level variant. The two
    shapes exclude each other: the single statement part either has prose
    or has level children. *)
Theorem C3_statement_exclusivity
    reqId req applicability label termMap needsSuffix :
  let c := buildRequirementControl reqId req applicability label termMap needsSuffix in
  (∀ levels, req_varies_by_level req = Some levels →
     ∃ kids,
       statement_parts c
       = [mkPart (Some (ctl_id c +:+ "_stmt")) "statement" None None None (Some kids)]
       ∧ Forall2
           (fun (lv : string * LevelData) kid =>
              part_name kid = "item"
              ∧ part_id kid = Some (ctl_id c +:+ "_stmt_" +:+ fst lv)
              ∧ part_prose kid = Some (lvl_statement (snd lv))
              ∧ ∃ ps, part_props kid = Some ps ∧ fProp "level" (fst lv) ∈ ps)
           levels kids)
  ∧ (∀ statement,
       req_varies_by_level req = None →
       req_statement req = Some statement → statement ≠ "" →
       ∃ kids,
         statement_parts c
         = [mkPart (Some (ctl_id c +:+ "_stmt")) "statement" None (Some statement)
                   None (nonempty kids)]
         ∧ map part_prose kids
           = map Some (elems (req_following_information req)
                       ++ elems (req_following_information_bullets req))
         ∧ Forall (fun kid => part_name kid = "item" ∧ part_props kid = None
                              ∧ part_parts kid = None) kids).
Proof.
  intros c. subst c. split.
  - intros levels Hv. eexists. split.
    + rewrite requirement_statement_parts. unfold statement_block.
      rewrite Hv. reflexivity.
    + apply level_parts_shape.
  - intros statement Hv Hs Hne. eexists. split_and!.
    + rewrite requirement_statement_parts. unfold statement_block.
      rewrite Hv, Hs. destruct statement; [done|]. reflexivity.
    + by rewrite map_app, !item_parts_prose, map_app.
    + apply Forall_app. split; apply item_parts_bare.
Qed.

(** ** Requirements carrying both statement forms *)

Lemma build_ignores_flat_fields reqId req applicability label termMap needsSuffix :
  Js.defined (req_varies_by_level req) = true →
  buildRequirementControl reqId req applicability label termMap needsSuffix
  = buildRequirementControl reqId (without_flat_fields req) applicability label
      termMap needsSuffix.
Proof.
  intros Hv. unfold buildRequirementControl.
  cbn [without_flat_fields req_fka req_fkas req_name req_statement
       req_primary_key_word req_terms req_affects req_notes req_note
       req_examples req_following_information
       req_following_information_bullets req_notification req_timeframe_type
       req_timeframe_num req_varies_by_level req_impact req_danger].
  by destruct (req_varies_by_level req).
Qed.

(** C10. A requirement that carries both a flat statement and level
    variants passes the requirement check (the check adds a violation
    exactly when the statement is missing or empty and the level variants
    are absent). Its control is the one built from the same requirement
    without its flat statement, flat keyword and timeframe fields and
    follow-up lists, and its only "statement" part is the prose-less parent
    of the per-level parts. *)
Theorem C10_both_forms_accepted_flat_dropped
    reqId req applicability label termMap needsSuffix statement levels errors n :
  req_statement req = Some statement →
  req_varies_by_level req = Some levels →
  let c := buildRequirementControl reqId req applicability label termMap needsSuffix in
  check_requirement (errors, n) (applicability, label, reqId, req) = (errors, S n)
  ∧ (∀ r : FRRRequirement,
       fst (check_requirement (errors, n) (applicability, label, reqId, r))
       = errors ++ [requirement_error reqId]
       ↔ Js.truthy (req_statement r) = false ∧ req_varies_by_level r = None)
  ∧ (∀ r : FRRRequirement,
       fst (check_requirement (errors, n) (applicability, label, reqId, r)) = errors
       ↔ ¬ (Js.truthy (req_statement r) = false ∧ req_varies_by_level r = None))
  ∧ c = buildRequirementControl reqId (without_flat_fields req) applicability
          label termMap needsSuffix
  ∧ statement_parts c
    = [mkPart (Some (ctl_id c +:+ "_stmt")) "statement" None None None
              (Some (map (level_part (ctl_id c)) levels))].
Proof.
  intros Hs Hv c.
  assert (Hgrow : ∀ x : string, errors ++ [x] ≠ errors).
  { intros x Heq. apply (f_equal length) in Heq.
    rewrite length_app in Heq. cbn in Heq. lia. }
  assert (Hlack : ∀ r, lacks_statement r = true
                       ↔ Js.truthy (req_statement r) = false
                         ∧ req_varies_by_level r = None).
  { intros r. unfold lacks_statement.
    destruct (Js.truthy (req_statement r)), (req_varies_by_level r); cbn;
      intuition congruence. }
  split_and!.
  - unfold check_requirement, lacks_statement. rewrite Hv. cbn.
    by rewrite andb_false_r.
  - intros r. rewrite <- Hlack. unfold check_requirement.
    destruct (lacks_statement r); cbn; [done|].
    split; [|done]. intros Heq. symmetry in Heq. by apply Hgrow in Heq.
  - intros r. rewrite <- Hlack. unfold check_requirement.
    destruct (lacks_statement r); cbn.
    + split; [intros Heq; by apply Hgrow in Heq | intros Hn; by destruct Hn].
    + split; [intros _; discriminate | done].
  - subst c. apply build_ignores_flat_fields. by rewrite Hv.
  - subst c. rewrite requirement_statement_parts. unfold statement_block.
    by rewrite Hv.
Qed.

(** ** The duplicate pre-scan *)

Lemma note_applicability_fold es m k :
  default [] (fold_left note_applicability es m !! k)
  = default [] (m !! k)
    ++ map entry_applicability (filter (fun e => entry_key e = k) es).
Proof.
  revert m. induction es as [|[[[a l] k'] r] es IH]; intros m; cbn.
  - by rewrite app_nil_r.
  - rewrite IH. unfold entry_key at 2. cbn.
    destruct (decide (k' = k)) as [->|Hne].
    + rewrite lookup_insert_eq. cbn. by rewrite <- app_assoc.
    + by rewrite lookup_insert_ne.
Qed.

(** A key is reported by the pre-scan exactly when it occurs more than once
    among the entries of the process, whatever the partitions and labels of
    the occurrences. *)
Lemma findDuplicateReqIds_spec process k :
  k ∈ findDuplicateReqIds process ↔ (1 < length (occurrences k process))%nat.
Proof.
  unfold findDuplicateReqIds, occurrences.
  pose proof (note_applicability_fold (process_entries process) ∅ k) as Hfold.
  rewrite lookup_empty in Hfold. cbn in Hfold.
  rewrite elem_of_dom. unfold is_Some.
  setoid_rewrite map_lookup_filter_Some. cbn.
  destruct (fold_left note_applicability (process_entries process) ∅ !! k)
    as [apps|] eqn:E; cbn in Hfold.
  - rewrite <- (length_map entry_applicability), <- Hfold.
    split; [intros (x & [= <-] & H); done | intros H; eauto].
  - rewrite <- (length_map entry_applicability), <- Hfold. cbn.
    split; [intros (x & [=] & _) | lia].
Qed.

(** ** Control ids within a process group *)

Lemma process_group_controls processKey process termMap :
  elems (grp_controls (buildProcessGroup processKey process termMap))
  = map (requirement_control process termMap) (process_entries process).
Proof.
  unfold buildProcessGroup. cbn [grp_controls]. rewrite elems_nonempty.
  apply map_ext. by intros [[[a l] k] r].
Qed.

Lemma requirement_control_id process termMap a l k r :
  ctl_id (requirement_control process termMap (a, l, k, r))
  = if bool_decide (1 < length (occurrences k process))%nat
    then Js.toLowerCase k +:+ "_" +:+ a
    else Js.toLowerCase k.
Proof.
  unfold requirement_control. rewrite ctl_id_build. unfold control_id.
  by rewrite (bool_decide_ext _ _ (findDuplicateReqIds_spec process k)).
Qed.

Lemma two_members_length {A} (l : list A) (x y : A) :
  x ∈ l → y ∈ l → x ≠ y → (1 < length l)%nat.
Proof.
  destruct l as [|a [|b l]]; cbn; [| |lia].
  - by intros ?%elem_of_nil.
  - intros ->%list_elem_of_singleton ->%list_elem_of_singleton. done.
Qed.

(** C2, as stated, fails in two places; both processes are well-formed
    JSON objects. With the key "REQ-1" under the partitions "Both" and
    "20x", the first control id is "req-1_Both": the tag is appended as
    written, not lowercased. With the key "REQ-1" under two labels of the
    single partition "both", both control ids carry the suffix although
    the key appears in exactly one partition. *)
Lemma C2_counterexample :
  (process_objects Collision.mixed_case
   ∧ Collision.ids Collision.mixed_case = ["req-1_Both"; "req-1_20x"]
   ∧ "req-1_Both" ≠ Js.toLowerCase "REQ-1" +:+ "_" +:+ Js.toLowerCase "Both")
  ∧ (process_objects Collision.two_labels
     ∧ map entry_applicability (occurrences "REQ-1" Collision.two_labels)
       = ["both"; "both"]
     ∧ Collision.ids Collision.two_labels = ["req-1_both"; "req-1_both"]
     ∧ "req-1_both" ≠ Js.toLowerCase "REQ-1").
Proof.
  split_and!; by_evaluation.
Qed.

(** C2, amended. A requirement key that appears under two different
    applicability partitions of a process yields two different control
    ids, each the lowercased key, an underscore and the applicability tag
    exactly as the source writes it. A requirement key that occurs exactly
    once in the process yields the bare lowercased key. *)
Theorem C2_collision_disambiguation processKey process termMap :
  let controls := elems (grp_controls (buildProcessGroup processKey process termMap)) in
  (∀ i j a1 l1 r1 a2 l2 r2 k,
     process_entries process !! i = Some (a1, l1, k, r1) →
     process_entries process !! j = Some (a2, l2, k, r2) →
     a1 ≠ a2 →
     ∃ c1 c2,
       controls !! i = Some c1 ∧ controls !! j = Some c2
       ∧ ctl_id c1 = Js.toLowerCase k +:+ "_" +:+ a1
       ∧ ctl_id c2 = Js.toLowerCase k +:+ "_" +:+ a2
       ∧ ctl_id c1 ≠ ctl_id c2)
  ∧ (∀ i a l r k,
       process_entries process !! i = Some (a, l, k, r) →
       occurrences k process = [(a, l, k, r)] →
       ∃ c, controls !! i = Some c ∧ ctl_id c = Js.toLowerCase k).
Proof.
  intros controls. subst controls. rewrite process_group_controls. split.
  - intros i j a1 l1 r1 a2 l2 r2 k Hi Hj Hne.
    assert (Hdup : (1 < length (occurrences k process))%nat).
    { apply (two_members_length _ (a1, l1, k, r1) (a2, l2, k, r2)).
      - apply list_elem_of_filter. split; [done|]. by eapply list_elem_of_lookup_2.
      - apply list_elem_of_filter. split; [done|]. by eapply list_elem_of_lookup_2.
      - congruence. }
    exists (requirement_control process termMap (a1, l1, k, r1)),
           (requirement_control process termMap (a2, l2, k, r2)).
    change map with (@fmap list _). rewrite !list_lookup_fmap, Hi, Hj.
    rewrite !requirement_control_id, !bool_decide_eq_true_2 by done.
    split_and!; try done.
    intros Heq. apply (inj (String.app _)) in Heq.
    apply (inj (String.app _)) in Heq. done.
  - intros i a l r k Hi Hocc.
    exists (requirement_control process termMap (a, l, k, r)).
    change map with (@fmap list _). rewrite list_lookup_fmap, Hi.
    rewrite requirement_control_id, Hocc. done.
Qed.

(** ** Strings *)

Lemma string_app_cons c s t : String c s +:+ t = String c (s +:+ t).
Proof. reflexivity. Qed.

Lemma list_ascii_app s t :
  list_ascii_of_string (s +:+ t)
  = list_ascii_of_string s ++ list_ascii_of_string t.
Proof.
  induction s as [|c s IH]; [done|].
  rewrite string_app_cons. cbn. by rewrite IH.
Qed.

Lemma list_ascii_inj s t :
  list_ascii_of_string s = list_ascii_of_string t → s = t.
Proof.
  intros H. rewrite <- (string_of_list_ascii_of_string s),
              <- (string_of_list_ascii_of_string t). by rewrite H.
Qed.

Lemma string_app_inv_tail s1 s2 t : s1 +:+ t = s2 +:+ t → s1 = s2.
Proof.
  intros H. apply list_ascii_inj.
  apply (f_equal list_ascii_of_string) in H.
  rewrite !list_ascii_app in H. by apply app_inv_tail in H.
Qed.

(** Two strings that end in different characters differ. *)
Lemma string_app_last_ne s1 s2 t1 t2 (a b : ascii) :
  a ≠ b → s1 +:+ t1 +:+ String a "" ≠ s2 +:+ t2 +:+ String b "".
Proof.
  intros Hab H. apply (f_equal list_ascii_of_string) in H.
  rewrite !list_ascii_app in H. cbn in H.
  rewrite !app_assoc in H. apply app_inj_tail in H as [_ ?]. done.
Qed.

(** ** Link deduplication *)

Lemma elem_of_map {A B} (f : A → B) (l : list A) (y : B) :
  y ∈ map f l ↔ ∃ x, y = f x ∧ x ∈ l.
Proof. exact (list_elem_of_fmap f l y). Qed.

Lemma dedup_from_filter_key links seen key :
  filter (fun l => link_key l = key) (dedup_from seen links)
  = if decide (key ∈ seen) then []
    else take 1 (filter (fun l => link_key l = key) links).
Proof.
  revert seen. induction links as [|l links IH]; intros seen; cbn [dedup_from].
  - by destruct (decide (key ∈ seen)).
  - destruct (decide (link_key l ∈ seen)) as [Hin|Hnin].
    + rewrite IH. destruct (decide (key ∈ seen)) as [|Hk]; [done|].
      rewrite (filter_cons _ l), decide_False; [done|]. by intros <-.
    + rewrite !filter_cons. destruct (decide (link_key l = key)) as [<-|Hne].
      * rewrite IH, decide_True by set_solver.
        rewrite decide_False by done. done.
      * rewrite IH. destruct (decide (key ∈ seen)).
        -- rewrite decide_True by set_solver. done.
        -- rewrite decide_False; [done|].
           rewrite elem_of_union, elem_of_singleton. by intros [?|?].
Qed.

Lemma dedup_from_sublist links seen l :
  l ∈ dedup_from seen links → l ∈ links.
Proof.
  revert seen. induction links as [|x links IH]; intros seen; cbn; [done|].
  destruct (decide (link_key x ∈ seen)).
  - intros ?%IH. by right.
  - intros [->|?%IH]%elem_of_cons; [left|by right].
Qed.

Lemma filter_ext_elem {A} (P Q : A → Prop)
    `{!∀ x, Decision (P x)} `{!∀ x, Decision (Q x)} (l : list A) :
  (∀ x, x ∈ l → P x ↔ Q x) → filter P l = filter Q l.
Proof.
  induction l as [|x l IH]; intros Hiff; [done|].
  rewrite !filter_cons.
  destruct (decide (P x)) as [HP|HP], (decide (Q x)) as [HQ|HQ].
  - f_equal. apply IH. intros y Hy. apply Hiff. by right.
  - destruct HQ. apply Hiff; [left|done].
  - destruct HP. apply Hiff; [left|done].
  - apply IH. intros y Hy. apply Hiff. by right.
Qed.

Lemma builder_link_key l href :
  builder_link l →
  link_key l = href +:+ "|term" ↔ link_href l = href ∧ link_rel l = Some "term".
Proof.
  intros Hl. unfold link_key. split.
  - destruct Hl as [-> | ->]; cbn.
    + intros H. split; [|done].
      by apply (string_app_inv_tail _ _ "|term").
    + intros H. exfalso.
      by apply (string_app_last_ne (link_href l) href "|relate" "|ter" "d" "m") in H.
  - intros [-> ->]. done.
Qed.

Lemma term_links_elem termMap terms l :
  l ∈ term_links termMap terms ↔
  ∃ term uuid, term ∈ elems terms ∧ termMap !! Js.toLowerCase term = Some uuid
               ∧ uuid ≠ "" ∧ l = mkLink ("#" +:+ uuid) (Some "term") (Some term).
Proof.
  unfold term_links. rewrite list_elem_of_bind. split.
  - intros (term & Hl & Hterm). exists term.
    destruct (termMap !! Js.toLowerCase term) as [uuid|]; [|by apply elem_of_nil in Hl].
    exists uuid. destruct uuid; cbn in Hl; [by apply elem_of_nil in Hl|].
    apply list_elem_of_singleton in Hl. done.
  - intros (term & uuid & Hterm & Hget & Hne & ->). exists term. split; [|done].
    rewrite Hget. destruct uuid; [done|]. cbn. by left.
Qed.

Lemma term_links_builder termMap terms :
  Forall builder_link (term_links termMap terms).
Proof.
  apply Forall_forall. intros l (t & u & _ & _ & _ & ->)%term_links_elem. by left.
Qed.

(** After deduplication a target that some link had keeps exactly one link. *)
Lemma deduplicateLinks_one links href :
  Forall builder_link links →
  (∃ l, l ∈ links ∧ link_href l = href ∧ link_rel l = Some "term") →
  length (filter (fun l => link_href l = href ∧ link_rel l = Some "term")
                 (deduplicateLinks links)) = 1%nat.
Proof.
  intros Hall (l & Hl & Hh & Hr). unfold deduplicateLinks.
  rewrite (filter_ext_elem _ (fun l => link_key l = href +:+ "|term")).
  - rewrite dedup_from_filter_key, decide_False by set_solver.
    assert (l ∈ filter (λ l0 : Link, link_key l0 = href +:+ "|term") links) as Hin.
    { apply list_elem_of_filter. split; [|done].
      apply builder_link_key; [by left|done]. }
    destruct (filter _ links); [by apply elem_of_nil in Hin|done].
  - intros x Hx%dedup_from_sublist. symmetry. apply builder_link_key.
    by eapply Forall_forall in Hall.
Qed.

Lemma indicator_links_build termMap indicatorId indicator :
  ctl_links (buildIndicatorControl termMap (indicatorId, indicator))
  = let links :=
      map (fun nistControl =>
             mkLink ("#" +:+ nistControl) (Some "related")
                    (Some (Js.toUpperCase nistControl)))
          (elems (ind_controls indicator))
      ++ term_links termMap (ind_terms indicator) in
    match links with [] => None | _ => Some (deduplicateLinks links) end.
Proof. reflexivity. Qed.

Lemma indicator_links_builder termMap indicator :
  Forall builder_link
    (map (fun nistControl =>
            mkLink ("#" +:+ nistControl) (Some "related")
                   (Some (Js.toUpperCase nistControl)))
         (elems (ind_controls indicator))
     ++ term_links termMap (ind_terms indicator)).
Proof.
  apply Forall_app. split; [|apply term_links_builder].
  apply Forall_forall. intros l (x & -> & _)%elem_of_map. by right.
Qed.

(** C6. Whenever two term references of a requirement, or of an indicator,
    resolve through the index to the same glossary resource id, the built
    control has exactly one link with that resource as target and the
    relation "term". *)
Theorem C6_term_links_deduplicated
    (termMap : gmap string string) (uuid t1 t2 : string) (i j : nat) :
  i ≠ j →
  termMap !! Js.toLowerCase t1 = Some uuid →
  termMap !! Js.toLowerCase t2 = Some uuid →
  Js.truthy (Some uuid) = true →
  (∀ reqId req applicability label needsSuffix,
     elems (req_terms req) !! i = Some t1 →
     elems (req_terms req) !! j = Some t2 →
     length (links_to ("#" +:+ uuid) "term"
               (buildRequirementControl reqId req applicability label termMap
                  needsSuffix)) = 1%nat)
  ∧ (∀ indicatorId indicator,
       elems (ind_terms indicator) !! i = Some t1 →
       elems (ind_terms indicator) !! j = Some t2 →
       length (links_to ("#" +:+ uuid) "term"
                 (buildIndicatorControl termMap (indicatorId, indicator))) = 1%nat).
Proof.
  intros _ H1 _ Hu.
  assert (Hne : uuid ≠ "") by (by destruct uuid).
  split.
  - intros reqId req applicability label needsSuffix Hi _.
    unfold links_to. rewrite ctl_links_build. cbv zeta.
    assert (Hin : mkLink ("#" +:+ uuid) (Some "term") (Some t1)
                  ∈ term_links termMap (req_terms req)).
    { apply term_links_elem. exists t1, uuid. split_and!; try done.
      by eapply list_elem_of_lookup_2. }
    destruct (term_links termMap (req_terms req)) as [|l0 ls] eqn:E;
      [by apply elem_of_nil in Hin|].
    cbn [elems]. apply deduplicateLinks_one.
    + rewrite <- E. apply term_links_builder.
    + eexists. split; [exact Hin|done].
  - intros indicatorId indicator Hi _.
    unfold links_to. rewrite indicator_links_build. cbv zeta.
    pose proof (indicator_links_builder termMap indicator) as Hall.
    assert (Hin : mkLink ("#" +:+ uuid) (Some "term") (Some t1)
                  ∈ map (fun nistControl =>
                            mkLink ("#" +:+ nistControl) (Some "related")
                                   (Some (Js.toUpperCase nistControl)))
                        (elems (ind_controls indicator))
                    ++ term_links termMap (ind_terms indicator)).
    { apply elem_of_app. right.
      apply term_links_elem. exists t1, uuid. split_and!; try done.
      by eapply list_elem_of_lookup_2. }
    destruct (_ ++ _) as [|l0 ls]; [by apply elem_of_nil in Hin|].
    cbn [elems]. apply deduplicateLinks_one; [done|].
    eexists. split; [exact Hin|done].
Qed.

(** ** Referential integrity of term links *)

Lemma fold_left_invariant {A B} (Inv : A → Prop) (f : A → B → A) (l : list B) a :
  (∀ a x, x ∈ l → Inv a → Inv (f a x)) → Inv a → Inv (fold_left f l a).
Proof.
  revert a. induction l as [|x l IH]; intros a Hstep Ha; [done|].
  cbn. apply IH.
  - intros a' y Hy. apply Hstep. by right.
  - apply Hstep; [left|done].
Qed.

(** Every value of the glossary index is the uuid of a source term. *)
Lemma buildTermUUIDMap_values frdData k uuid :
  buildTermUUIDMap frdData !! k = Some uuid → uuid ∈ term_uuids frdData.
Proof.
  pose (Inv := fun m : gmap string string =>
                 ∀ k uuid, m !! k = Some uuid → uuid ∈ term_uuids frdData).
  assert (Hins : ∀ m key u, u ∈ term_uuids frdData → Inv m → Inv (<[key := u]> m)).
  { intros m key u Hu Hm k' u'. destruct (decide (key = k')) as [->|Hne].
    - rewrite lookup_insert_eq. by intros [= <-].
    - rewrite lookup_insert_ne by done. apply Hm. }
  enough (Inv (buildTermUUIDMap frdData)) as HInv by apply HInv.
  unfold buildTermUUIDMap.
  apply fold_left_invariant; [|intros ?? Hemp; by rewrite lookup_empty in Hemp].
  intros m part Hpart Hm.
  apply fold_left_invariant; [|done].
  intros m' [termId entry] Hterm Hm'. unfold register_term.
  assert (generateUUID NsFrdTerm termId ∈ term_uuids frdData) as Hu.
  { unfold term_uuids. apply elem_of_map. exists (termId, entry). split; [done|].
    unfold all_terms. apply list_elem_of_bind. eauto. }
  apply fold_left_invariant; [|by apply Hins].
  intros m'' alt _ Hm''. by apply Hins.
Qed.

Lemma catalog_resources_build now frmr :
  catalog_resources (buildCatalog now frmr)
  = map buildResource (all_terms (frmr_FRD_data frmr)).
Proof.
  unfold catalog_resources, buildCatalog, buildBackMatter, all_terms. cbn.
  induction (frmr_FRD_data frmr) as [|part frd IH]; [done|].
  cbn. by rewrite map_app, IH.
Qed.

Lemma resource_for_uuid now frmr uuid :
  uuid ∈ term_uuids (frmr_FRD_data frmr) →
  ∃ r, r ∈ catalog_resources (buildCatalog now frmr) ∧ res_uuid r = uuid.
Proof.
  unfold term_uuids. intros ([termId entry] & -> & Hin)%elem_of_map.
  exists (buildResource (termId, entry)). split; [|done].
  rewrite catalog_resources_build. apply elem_of_map. eauto.
Qed.

Lemma process_group_all_controls processKey process termMap :
  group_controls (buildProcessGroup processKey process termMap)
  = map (requirement_control process termMap) (process_entries process).
Proof.
  rewrite <- (process_group_controls processKey).
  unfold buildProcessGroup. cbn [group_controls grp_controls].
  by rewrite app_nil_r.
Qed.

Lemma domain_group_all_controls domainKey domain termMap :
  group_controls (buildKSIDomainGroup domainKey domain termMap)
  = map (buildIndicatorControl termMap) (dom_indicators domain).
Proof.
  unfold buildKSIDomainGroup. cbn. by rewrite elems_nonempty, app_nil_r.
Qed.

Lemma catalog_controls_build now frmr :
  catalog_controls (buildCatalog now frmr) = source_controls frmr.
Proof.
  unfold catalog_controls, source_controls, buildCatalog.
  cbn [cat_groups elems]. rewrite flat_map_app. f_equal.
  - induction (frmr_FRR frmr) as [|[pk p] frr IH]; [done|].
    cbn [map flat_map]. rewrite process_group_all_controls, IH. done.
  - cbn [flat_map]. rewrite app_nil_r. cbn [group_controls elems].
    cbn [app]. unfold all_indicators.
    induction (frmr_KSI frmr) as [|[dk d] ksi IH]; [done|].
    cbn [map flat_map]. rewrite domain_group_all_controls, IH.
    cbn. by rewrite map_app.
Qed.

Lemma requirement_links_from_terms reqId req applicability label termMap needsSuffix l :
  l ∈ elems (ctl_links (buildRequirementControl reqId req applicability label
                          termMap needsSuffix)) →
  l ∈ term_links termMap (req_terms req).
Proof.
  rewrite ctl_links_build. cbv zeta.
  destruct (term_links termMap (req_terms req)) as [|l0 ls];
    [by intros ?%elem_of_nil|].
  cbn [elems]. apply dedup_from_sublist.
Qed.

Lemma indicator_links_from_terms termMap indicatorId indicator l :
  l ∈ elems (ctl_links (buildIndicatorControl termMap (indicatorId, indicator))) →
  link_rel l = Some "term" →
  l ∈ term_links termMap (ind_terms indicator).
Proof.
  rewrite indicator_links_build. cbv zeta.
  destruct (_ ++ _) as [|l0 ls] eqn:E; [by intros ?%elem_of_nil|].
  cbn [elems]. intros Hl%dedup_from_sublist Hrel. rewrite <- E in Hl.
  apply elem_of_app in Hl as [(x & -> & _)%elem_of_map | Hl]; [done|exact Hl].
Qed.

Lemma Forall2_map_same {A B C} (R : B → C → Prop) (f : A → B) (g : A → C) l :
  (∀ x, x ∈ l → R (f x) (g x)) → Forall2 R (map f l) (map g l).
Proof.
  induction l as [|x l IH]; intros H; cbn; constructor.
  - apply H. by left.
  - apply IH. intros y Hy. apply H. by right.
Qed.

(** C7. In the catalog built from any source document, control by control
    (each control taken with the term references of the requirement or
    indicator it was built from): every link with relation "term" points
    to "#" followed by the uuid of a resource of the catalog's back-matter,
    that uuid is what the glossary index gives for the link text, and the
    link text is one of the term references of the source entity; a term
    reference the index does not resolve is the text of no term link. *)
Theorem C7_term_links_resolve now frmr :
  let catalog := buildCatalog now frmr in
  let index := buildTermUUIDMap (frmr_FRD_data frmr) in
  Forall2
    (fun (terms : list string) (c : Control) =>
       (∀ l, l ∈ elems (ctl_links c) → link_rel l = Some "term" →
          ∃ term uuid r,
            term ∈ terms
            ∧ link_text l = Some term
            ∧ index !! Js.toLowerCase term = Some uuid
            ∧ link_href l = "#" +:+ uuid
            ∧ r ∈ catalog_resources catalog
            ∧ res_uuid r = uuid)
       ∧ (∀ term, term ∈ terms → index !! Js.toLowerCase term = None →
            ∀ l, l ∈ elems (ctl_links c) → link_rel l = Some "term" →
              link_text l ≠ Some term))
    (source_term_refs frmr) (catalog_controls catalog).
Proof.
  intros catalog index. subst catalog.
  rewrite catalog_controls_build. unfold source_term_refs, source_controls.
  fold index.
  assert (Hlink : ∀ terms l,
            l ∈ term_links index terms →
            ∃ term uuid r,
              term ∈ elems terms ∧ link_text l = Some term
              ∧ index !! Js.toLowerCase term = Some uuid
              ∧ link_href l = "#" +:+ uuid
              ∧ r ∈ catalog_resources (buildCatalog now frmr)
              ∧ res_uuid r = uuid).
  { intros terms l (term & uuid & Hterm & Hget & _ & ->)%term_links_elem.
    destruct (resource_for_uuid now frmr uuid) as (r & Hr & Hu).
    { by eapply buildTermUUIDMap_values. }
    exists term, uuid, r. done. }
  assert (Hgen : ∀ terms c,
            (∀ l, l ∈ elems (ctl_links c) → link_rel l = Some "term" →
               l ∈ term_links index terms) →
            (∀ l, l ∈ elems (ctl_links c) → link_rel l = Some "term" →
               ∃ term uuid r,
                 term ∈ elems terms ∧ link_text l = Some term
                 ∧ index !! Js.toLowerCase term = Some uuid
                 ∧ link_href l = "#" +:+ uuid
                 ∧ r ∈ catalog_resources (buildCatalog now frmr)
                 ∧ res_uuid r = uuid)
            ∧ (∀ term, term ∈ elems terms → index !! Js.toLowerCase term = None →
                 ∀ l, l ∈ elems (ctl_links c) → link_rel l = Some "term" →
                   link_text l ≠ Some term)).
  { intros terms c Hc. split.
    - intros l Hl Hrel. apply Hlink. by apply Hc.
    - intros term _ Hnone l Hl Hrel Htext.
      destruct (Hlink terms l (Hc l Hl Hrel)) as (t & u & _ & _ & Ht & Hget & _).
      congruence. }
  apply Forall2_app.
  - unfold all_requirements.
    induction (frmr_FRR frmr) as [|[pk p] frr IH]; [constructor|].
    cbn [mbind list_bind]. rewrite map_app. apply Forall2_app; [|exact IH].
    apply Forall2_map_same. intros [[[a lab] k] req] _.
    apply Hgen. intros l Hl _. by eapply requirement_links_from_terms.
  - apply Forall2_map_same. intros [k ind] _.
    apply Hgen. intros l Hl Hrel. by eapply indicator_links_from_terms.
Qed.

(** ** Uniqueness of ids *)

Lemma lower_ascii_underscore c :
  Ascii.eqb (Js.lower_ascii c) "_" = Ascii.eqb c "_".
Proof. destruct c as [[] [] [] [] [] [] [] []]; reflexivity. Qed.

Lemma toLowerCase_contains_underscore s :
  contains "_" (Js.toLowerCase s) = contains "_" s.
Proof.
  induction s as [|c s IH]; [done|]. cbn.
  by rewrite lower_ascii_underscore, IH.
Qed.

Lemma toLowerCase_no_underscore s :
  no_underscore s → no_underscore (Js.toLowerCase s).
Proof. unfold no_underscore. by rewrite toLowerCase_contains_underscore. Qed.

Lemma before_underscore_id s : no_underscore s → before_underscore s = s.
Proof.
  unfold no_underscore. induction s as [|c s IH]; [done|]. cbn.
  destruct (Ascii.eqb c "_"); [done|]. cbn. intros H. by rewrite IH.
Qed.

Lemma before_underscore_suffixed s t :
  no_underscore s → before_underscore (s +:+ "_" +:+ t) = s.
Proof.
  unfold no_underscore. induction s as [|c s IH]; [done|].
  rewrite string_app_cons. cbn.
  destruct (Ascii.eqb c "_"); [done|]. cbn. intros H. by rewrite IH.
Qed.

Lemma NoDup_map_inj_on {A B} (f : A → B) (l : list A) x y :
  NoDup (map f l) → x ∈ l → y ∈ l → f x = f y → x = y.
Proof.
  induction l as [|a l IH]; cbn; [by intros _ ?%elem_of_nil|].
  intros [Hnin Hnd]%NoDup_cons [->|Hx]%elem_of_cons [->|Hy]%elem_of_cons Heq;
    [done| | |by apply IH].
  - destruct Hnin. apply elem_of_map. eauto.
  - destruct Hnin. apply elem_of_map. eauto.
Qed.

(** [map f l] has no duplicates as soon as [map g l] has none and [f]
    separates what [g] separates. *)
Lemma NoDup_map_via {A B C} (f : A → B) (g : A → C) (l : list A) :
  NoDup (map g l) →
  (∀ x y, x ∈ l → y ∈ l → f x = f y → g x = g y) →
  NoDup (map f l).
Proof.
  induction l as [|a l IH]; cbn; [constructor|].
  intros [Hnin Hnd]%NoDup_cons Hsep. apply NoDup_cons. split.
  - intros (y & Hfy & Hy)%elem_of_map. apply Hnin.
    apply elem_of_map. exists y. split; [|done].
    apply Hsep; [left|by right|done].
  - apply IH; [done|]. intros x y Hx Hy. apply Hsep; by right.
Qed.

Lemma map_bind {A B C} (f : B → C) (g : A → list B) (l : list A) :
  map f (l ≫= g) = l ≫= (fun x => map f (g x)).
Proof. induction l as [|x l IH]; [done|]. cbn. by rewrite map_app, IH. Qed.

Lemma NoDup_bind_block {A B} (g : A → list B) (l : list A) (rest : list B) x :
  NoDup ((l ≫= g) ++ rest) → x ∈ l → NoDup (g x).
Proof.
  induction l as [|a l IH]; cbn; [by intros _ ?%elem_of_nil|].
  rewrite <- app_assoc. intros (Ha & _ & Hrest)%NoDup_app [->|Hx]%elem_of_cons.
  - done.
  - by apply IH.
Qed.

(** Blocks of ids stay apart when each id has a base key, and the base
    keys, block by block, have no duplicates. *)
Lemma NoDup_blocks {A B K} (base : B → K) (f : A → list B) (g : A → list K)
    (l : list A) (rest : list B) (krest : list K) :
  (∀ x, x ∈ l → NoDup (f x)) →
  (∀ x y, x ∈ l → y ∈ f x → base y ∈ g x) →
  NoDup rest →
  (∀ y, y ∈ rest → base y ∈ krest) →
  NoDup ((l ≫= g) ++ krest) →
  NoDup ((l ≫= f) ++ rest).
Proof.
  intros Hblock Hbase Hrest Hkrest.
  assert (Hall : ∀ l', (∀ x, x ∈ l' → x ∈ l) →
            ∀ y, y ∈ (l' ≫= f) ++ rest → base y ∈ (l' ≫= g) ++ krest).
  { intros l' Hsub y [(x & Hy & Hx)%list_elem_of_bind | Hy]%elem_of_app.
    - apply elem_of_app. left. apply list_elem_of_bind. exists x.
      split; [|done]. apply Hbase; [by apply Hsub|done].
    - apply elem_of_app. right. by apply Hkrest. }
  induction l as [|a l IH]; cbn; [done|].
  rewrite <- !app_assoc. intros (Hga & Hdisj & Hnd)%NoDup_app.
  apply NoDup_app. split_and!.
  - apply Hblock. by left.
  - intros y Hy Hy'. apply (Hdisj (base y)).
    + apply Hbase; [left|done].
    + apply (Hall l); [|done]. intros x Hx. by right.
  - apply IH; try done.
    + intros x Hx. apply Hblock. by right.
    + intros x y Hx. apply Hbase. by right.
    + intros l' Hsub. apply Hall. intros x Hx. right. by apply Hsub.
Qed.

Lemma indicator_control_id termMap kv :
  ctl_id (buildIndicatorControl termMap kv) = Js.toLowerCase (fst kv).
Proof. by destruct kv. Qed.

Lemma catalog_ids_build now frmr :
  catalog_ids (buildCatalog now frmr)
  = (frmr_FRR frmr ≫= process_ids (buildTermUUIDMap (frmr_FRD_data frmr)))
    ++ "key-security-indicators" :: (frmr_KSI frmr ≫= domain_ids).
Proof.
  unfold catalog_ids, buildCatalog. cbn [cat_groups elems].
  rewrite flat_map_app. f_equal.
  - induction (frmr_FRR frmr) as [|[pk p] frr IH]; [done|].
    cbn [map flat_map mbind list_bind]. rewrite IH.
    apply (f_equal (fun ids => ids ++ _)).
    unfold buildProcessGroup, process_ids.
    cbn [group_ids option_list fst snd app]. rewrite elems_nonempty, app_nil_r.
    rewrite map_map. reflexivity.
  - cbn [flat_map group_ids option_list elems map app]. rewrite app_nil_r.
    f_equal.
    induction (frmr_KSI frmr) as [|[dk d] ksi IH]; [done|].
    cbn [map flat_map mbind list_bind]. rewrite IH.
    apply (f_equal (fun ids => ids ++ _)).
    unfold buildKSIDomainGroup, domain_ids.
    cbn [group_ids option_list fst snd app]. rewrite elems_nonempty, app_nil_r.
    rewrite map_map. f_equal. apply map_ext. by intros [k ind].
Qed.

Lemma requirement_control_base process termMap e :
  no_underscore (entry_key e) →
  before_underscore (ctl_id (requirement_control process termMap e))
  = Js.toLowerCase (entry_key e).
Proof.
  destruct e as [[[a l] k] r]. unfold entry_key. cbn [fst snd]. intros Hk.
  rewrite requirement_control_id. apply toLowerCase_no_underscore in Hk.
  case_bool_decide.
  - by apply before_underscore_suffixed.
  - by apply before_underscore_id.
Qed.

Lemma occurrences_le_one process k e1 e2 :
  ¬ (1 < length (occurrences k process))%nat →
  e1 ∈ process_entries process → e2 ∈ process_entries process →
  entry_key e1 = k → entry_key e2 = k → e1 = e2.
Proof.
  intros Hlen H1 H2 Hk1 Hk2.
  assert (e1 ∈ occurrences k process) as Ho1 by (by apply list_elem_of_filter).
  assert (e2 ∈ occurrences k process) as Ho2 by (by apply list_elem_of_filter).
  destruct (occurrences k process) as [|a [|b l]]; cbn in Hlen.
  - by apply elem_of_nil in Ho1.
  - apply list_elem_of_singleton in Ho1, Ho2. congruence.
  - lia.
Qed.

(** Within one process group the ids are pairwise distinct. *)
Lemma process_ids_NoDup termMap processKey process :
  distinct_in_partition process →
  Forall no_underscore (processKey :: remove_dups (process_keys process)) →
  NoDup (map Js.toLowerCase (processKey :: remove_dups (process_keys process))) →
  NoDup (process_ids termMap (processKey, process)).
Proof.
  intros Hpart Hund Hkeys. unfold process_ids. cbn [fst snd].
  apply Forall_cons in Hund as [HundP Hund].
  cbn [map] in Hkeys. apply NoDup_cons in Hkeys as [Hpk Hkeys].
  assert (Hkey_in : ∀ e, e ∈ process_entries process →
                         entry_key e ∈ remove_dups (process_keys process)).
  { intros e He. apply elem_of_remove_dups. unfold process_keys.
    apply elem_of_map. eauto. }
  assert (Hkey_und : ∀ e, e ∈ process_entries process → no_underscore (entry_key e)).
  { intros e He. eapply Forall_forall in Hund; [exact Hund|]. by apply Hkey_in. }
  apply NoDup_cons. split.
  - intros (e & Hid & He)%elem_of_map. apply Hpk.
    apply elem_of_map. exists (entry_key e). split; [|by apply Hkey_in].
    rewrite <- (requirement_control_base process termMap e) by (by apply Hkey_und).
    rewrite <- Hid. symmetry. apply before_underscore_id.
    by apply toLowerCase_no_underscore.
  - apply (NoDup_map_via _ (fun e => (entry_applicability e, entry_key e)));
      [exact Hpart|].
    intros e1 e2 H1 H2 Hid.
    assert (Hk : entry_key e1 = entry_key e2).
    { apply (NoDup_map_inj_on Js.toLowerCase (remove_dups (process_keys process)));
        [done|by apply Hkey_in|by apply Hkey_in|].
      rewrite <- (requirement_control_base process termMap e1) by (by apply Hkey_und).
      rewrite <- (requirement_control_base process termMap e2) by (by apply Hkey_und).
      by rewrite Hid. }
    destruct e1 as [[[a1 l1] k1] r1], e2 as [[[a2 l2] k2] r2].
    unfold entry_key, entry_applicability in *. cbn [fst snd] in *. subst k2.
    rewrite !requirement_control_id in Hid. case_bool_decide as Hdup.
    + apply (inj (String.app _)) in Hid. apply (inj (String.app _)) in Hid.
      by subst.
    + pose proof (occurrences_le_one process k1 _ _ Hdup H1 H2 eq_refl eq_refl).
      by simplify_eq.
Qed.

Lemma source_keys_lower frmr :
  map Js.toLowerCase (source_keys frmr)
  = (frmr_FRR frmr ≫= process_key_block) ++ indicator_key_block frmr.
Proof.
  unfold source_keys. rewrite map_app, map_bind. f_equal.
  apply list_bind_ext; [|done]. by intros [pk p].
Qed.

Lemma indicator_ids_lower frmr :
  "key-security-indicators" :: (frmr_KSI frmr ≫= domain_ids)
  = indicator_key_block frmr.
Proof.
  unfold indicator_key_block. cbn [map]. f_equal. rewrite map_bind.
  apply list_bind_ext; [|done]. intros [dk d]. unfold domain_ids.
  cbn [map fst snd]. by rewrite map_map.
Qed.

(** C1, as stated, fails. Each of these documents is a well-formed JSON
    document (distinct keys in every object), passes source validation and
    satisfies the source invariants (every requirement has exactly one
    statement form and no key recurs within an applicability partition),
    and yet its catalog repeats an id: "req-1" for the same key in two
    processes, "req-1_both" for a key that spells a suffixed id, "req-1"
    for two keys that differ by case. *)
Lemma C1_counterexample :
  (json_objects IdClash.two_processes
   ∧ validateSource (of_typed IdClash.two_processes) = Validated 2 1
   ∧ source_invariants IdClash.two_processes
   ∧ catalog_ids (buildCatalog "" IdClash.two_processes)
     = ["aaa"; "req-1"; "bbb"; "req-1";
        "key-security-indicators"; "ksi-ex"; "ksi-ex-01"]
   ∧ ¬ NoDup (catalog_ids (buildCatalog "" IdClash.two_processes)))
  ∧ (json_objects IdClash.suffix_lookalike
     ∧ validateSource (of_typed IdClash.suffix_lookalike) = Validated 3 1
     ∧ source_invariants IdClash.suffix_lookalike
     ∧ catalog_ids (buildCatalog "" IdClash.suffix_lookalike)
       = ["aaa"; "req-1_both"; "req-1_20x"; "req-1_both";
          "key-security-indicators"; "ksi-ex"; "ksi-ex-01"]
     ∧ ¬ NoDup (catalog_ids (buildCatalog "" IdClash.suffix_lookalike)))
  ∧ (json_objects IdClash.case_variants
     ∧ validateSource (of_typed IdClash.case_variants) = Validated 2 1
     ∧ source_invariants IdClash.case_variants
     ∧ catalog_ids (buildCatalog "" IdClash.case_variants)
       = ["aaa"; "req-1"; "req-1";
          "key-security-indicators"; "ksi-ex"; "ksi-ex-01"]
     ∧ ¬ NoDup (catalog_ids (buildCatalog "" IdClash.case_variants))).
Proof.
  split_and!; by_evaluation.
Qed.

(** C1, amended. If, in every process, no requirement key recurs within an
    applicability partition, every key an id is derived from (process keys,
    domain ids, indicator keys, requirement keys) consists of ASCII
    characters only and contains no underscore, and these keys, together
    with the fixed id "key-security-indicators" and counting a requirement
    key once per process, are pairwise distinct after lowercasing, then all
    group and control ids of the catalog are pairwise distinct. The keys
    are ASCII because that is where lowercasing is the folding of A-Z: two
    keys that differ only by the case of a letter outside ASCII stay
    distinct under that folding and still collide in the catalog. *)
Theorem C1_ids_unique now frmr :
  Forall (fun kv => distinct_in_partition (snd kv)) (frmr_FRR frmr) →
  Forall ascii_only (source_keys frmr) →
  Forall no_underscore (source_keys frmr) →
  NoDup (map Js.toLowerCase (source_keys frmr)) →
  NoDup (catalog_ids (buildCatalog now frmr)).
Proof.
  intros Hpart _ Hund Hkeys. rewrite catalog_ids_build.
  rewrite source_keys_lower in Hkeys.
  assert (Hund_lower : ∀ k, k ∈ map Js.toLowerCase (source_keys frmr) →
                            before_underscore k = k).
  { intros k (k0 & -> & Hk0)%elem_of_map. apply before_underscore_id.
    apply toLowerCase_no_underscore. by eapply Forall_forall in Hund. }
  assert (Hproc_keys : ∀ pk p, (pk, p) ∈ frmr_FRR frmr →
            ∀ k, k ∈ pk :: remove_dups (process_keys p) → k ∈ source_keys frmr).
  { intros pk p Hin k Hk. unfold source_keys. apply elem_of_app. left.
    apply list_elem_of_bind. exists (pk, p). done. }
  apply (NoDup_blocks before_underscore _ process_key_block _ _
           (indicator_key_block frmr)); [| | | |exact Hkeys].
  - intros [pk p] Hin. apply process_ids_NoDup.
    + rewrite Forall_forall in Hpart. by apply (Hpart (pk, p)).
    + apply Forall_forall. intros k Hk.
      eapply Forall_forall in Hund; [exact Hund|]. by eapply Hproc_keys.
    + exact (NoDup_bind_block process_key_block _ _ (pk, p) Hkeys Hin).
  - intros [pk p] y Hin Hy. unfold process_ids in Hy. cbn [fst snd] in Hy.
    unfold process_key_block. cbn [fst snd map].
    apply elem_of_cons in Hy as [->|(e & -> & He)%elem_of_map].
    + rewrite Hund_lower; [by left|].
      apply elem_of_map. eexists. split; [done|].
      eapply Hproc_keys; [done|]. by left.
    + right. assert (entry_key e ∈ remove_dups (process_keys p)) as Hk.
      { apply elem_of_remove_dups. unfold process_keys. apply elem_of_map. eauto. }
      rewrite requirement_control_base.
      * apply elem_of_map. eauto.
      * eapply Forall_forall in Hund; [exact Hund|].
        eapply Hproc_keys; [done|]. by right.
  - rewrite indicator_ids_lower. by apply NoDup_app in Hkeys as (_ & _ & ?).
  - rewrite indicator_ids_lower. intros y Hy.
    rewrite Hund_lower; [done|]. rewrite source_keys_lower.
    apply elem_of_app. by right.
Qed.

(** ** The minimal document, end to end *)

Lemma join_nonempty sep x y rest : sep ≠ "" → Js.join sep (x :: y :: rest) ≠ "".
Proof.
  intros Hsep. cbn [Js.join]. destruct x as [|c x]; [|done].
  destruct sep as [|c sep]; done.
Qed.

Lemma uuidV5_nonempty namespace name : uuidV5 namespace name ≠ "".
Proof. unfold uuidV5. cbv zeta. by apply join_nonempty. Qed.

Lemma generateUUID_truthy ns id : Js.truthy (Some (generateUUID ns id)) = true.
Proof.
  pose proof (uuidV5_nonempty (NAMESPACES ns) id) as Hne.
  unfold generateUUID. by destruct (uuidV5 _ _).
Qed.

Lemma deduplicateLinks_singleton l : deduplicateLinks [l] = [l].
Proof.
  unfold deduplicateLinks. cbn [dedup_from].
  by rewrite decide_False by apply not_elem_of_empty.
Qed.

(** C8. For every document of the minimal shape (one glossary term
    "Example Term" with alias "ET", one requirement with a flat statement
    referencing "ET", one indicator with the single control reference
    "ac-2"): the catalog has exactly one back-matter resource, the one of
    the term; its groups are the process group and the indicators group;
    the process group has exactly one control, the requirement's, and its
    links are one "term" link to that resource; the mapping collection has
    exactly one map entry, whose single source id-ref is the lowercased
    indicator key and whose single target id-ref is "ac-2". *)
Theorem C8_minimal_round_trip
    now info pinfo termPartition termId definition
    processKey applicability label reqId statement
    domainKey domainId domainName theme
    indicatorId indicatorName indicatorStatement :
  let frmr :=
    Minimal.frmr info pinfo termPartition termId definition
      processKey applicability label reqId statement
      domainKey domainId domainName theme
      indicatorId indicatorName indicatorStatement in
  let catalog := buildCatalog now frmr in
  let collection := buildMappingCollection now frmr in
  ∃ r processGroup indicatorsGroup c e,
    catalog_resources catalog = [r]
    ∧ res_title r = Some "Example Term"
    ∧ cat_groups catalog = Some [processGroup; indicatorsGroup]
    ∧ grp_controls processGroup = Some [c]
    ∧ ctl_id c = Js.toLowerCase reqId
    ∧ ctl_links c = Some [mkLink ("#" +:+ res_uuid r) (Some "term") (Some "ET")]
    ∧ collection_maps collection = [e]
    ∧ me_sources e = [mkIdRef "control" (Js.toLowerCase indicatorId)]
    ∧ me_targets e = [mkIdRef "control" "ac-2"].
Proof.
  intros frmr catalog collection.
  set (process := Minimal.process pinfo applicability label reqId statement).
  assert (Hdup : bool_decide (reqId ∈ findDuplicateReqIds process) = false).
  { apply bool_decide_eq_false_2. rewrite findDuplicateReqIds_spec.
    unfold occurrences, process, Minimal.process, process_entries.
    cbn [proc_data mbind list_bind app]. rewrite filter_cons.
    unfold entry_key at 1. cbn [fst snd]. rewrite decide_True by done.
    cbn. lia. }
  assert (Hterm : buildTermUUIDMap (frmr_FRD_data frmr) !! Js.toLowerCase "ET"
                  = Some (generateUUID NsFrdTerm termId)).
  { unfold buildTermUUIDMap, register_term.
    cbn [frmr Minimal.frmr frmr_FRD_data fold_left snd Minimal.term term_term
         term_alts elems].
    apply lookup_insert_eq. }
  eexists (buildResource (termId, Minimal.term definition)),
          (buildProcessGroup processKey process _), _,
          (buildRequirementControl reqId (Minimal.req statement) applicability
             label _ false), _.
  split_and!.
  - reflexivity.
  - reflexivity.
  - reflexivity.
  - unfold buildProcessGroup. cbn [grp_controls].
    change (process_entries process)
      with [(applicability, label, reqId, Minimal.req statement)].
    cbn [map nonempty]. by rewrite Hdup.
  - by rewrite ctl_id_build.
  - rewrite ctl_links_build. cbv zeta. unfold term_links.
    cbn [Minimal.req req_terms elems mbind list_bind app].
    rewrite Hterm, generateUUID_truthy. cbn [app].
    by rewrite deduplicateLinks_singleton.
  - reflexivity.
  - reflexivity.
  - reflexivity.
Qed.

(** ** Instances *)

Lemma C1_ids_unique_witness :
  Forall (fun kv => distinct_in_partition (snd kv)) (frmr_FRR Sample.document)
  ∧ Forall ascii_only (source_keys Sample.document)
  ∧ Forall no_underscore (source_keys Sample.document)
  ∧ NoDup (map Js.toLowerCase (source_keys Sample.document))
  ∧ NoDup (catalog_ids (buildCatalog "" Sample.document)).
Proof.
  assert (H1 : Forall (fun kv => distinct_in_partition (snd kv))
                      (frmr_FRR Sample.document))
    by (apply (bool_decide_unpack _); vm_compute; exact I).
  assert (Ha : Forall ascii_only (source_keys Sample.document))
    by (apply (bool_decide_unpack _); vm_compute; exact I).
  assert (H2 : Forall no_underscore (source_keys Sample.document))
    by (apply (bool_decide_unpack _); vm_compute; exact I).
  assert (H3 : NoDup (map Js.toLowerCase (source_keys Sample.document)))
    by (apply (bool_decide_unpack _); vm_compute; exact I).
  split_and!; [exact H1|exact Ha|exact H2|exact H3|].
  exact (C1_ids_unique "" Sample.document H1 Ha H2 H3).
Defined.

Lemma C2_collision_disambiguation_witness :
  let controls := elems (grp_controls (buildProcessGroup "EXP" Sample.process ∅)) in
  (∃ c1 c2,
     controls !! 0%nat = Some c1 ∧ controls !! 1%nat = Some c2
     ∧ ctl_id c1 = Js.toLowerCase "REQ-1" +:+ "_" +:+ "both"
     ∧ ctl_id c2 = Js.toLowerCase "REQ-1" +:+ "_" +:+ "20x"
     ∧ ctl_id c1 ≠ ctl_id c2)
  ∧ (∃ c, controls !! 2%nat = Some c ∧ ctl_id c = Js.toLowerCase "REQ-2").
Proof.
  destruct (C2_collision_disambiguation "EXP" Sample.process ∅) as [Htwo Hone].
  split.
  - apply (Htwo 0%nat 1%nat "both" "CSO" Sample.flat "20x" "CSO" Sample.by_level "REQ-1").
    + reflexivity.
    + reflexivity.
    + discriminate.
  - apply (Hone 2%nat "20x" "CSO" Sample.flat "REQ-2").
    + reflexivity.
    + vm_compute. reflexivity.
Defined.

Lemma C3_statement_exclusivity_witness :
  (∃ kids,
     statement_parts (buildRequirementControl "REQ-1" Sample.by_level "20x" "CSO" ∅ true)
     = [mkPart (Some "req-1_20x_stmt") "statement" None None None (Some kids)]
     ∧ map part_prose kids
       = [Some "Providers SHOULD keep records."; Some "Providers MUST keep records."])
  ∧ (∃ kids,
       statement_parts (buildRequirementControl "REQ-2" Sample.flat "20x" "CSO" ∅ false)
       = [mkPart (Some "req-2_stmt") "statement" None
                 (Some "Providers MUST keep records.") None (nonempty kids)]
       ∧ map part_prose kids = [Some "daily"; Some "weekly"; Some "on request"]).
Proof.
  split.
  - destruct (C3_statement_exclusivity "REQ-1" Sample.by_level "20x" "CSO" ∅ true)
      as [Hlevels _].
    destruct (Hlevels Sample.levels eq_refl) as (kids & Hparts & Hkids).
    exists kids. split; [exact Hparts|].
    apply Forall2_cons_inv_l in Hkids as (k1 & kids1 & (_ & _ & Hp1 & _) & Hkids & ->).
    apply Forall2_cons_inv_l in Hkids as (k2 & kids2 & (_ & _ & Hp2 & _) & Hkids & ->).
    apply Forall2_nil_inv_l in Hkids as ->.
    cbn [map]. by rewrite Hp1, Hp2.
  - destruct (C3_statement_exclusivity "REQ-2" Sample.flat "20x" "CSO" ∅ false)
      as [_ Hflat].
    destruct (Hflat "Providers MUST keep records." eq_refl eq_refl)
      as (kids & Hparts & Hprose & _); [discriminate|].
    exists kids. split; [exact Hparts|exact Hprose].
Defined.

Lemma C5_validator_collects_both_witness :
  Js.truthy (raw_version Sample.incomplete) = true
  ∧ Js.defined (raw_FRD_data Sample.incomplete) = true
  ∧ missing_or_empty (raw_KSI Sample.incomplete) = true
  ∧ validateSource Sample.incomplete
    = Failed [ "Missing or empty KSI section";
               "Requirement REQ-2 has no statement or varies_by_level" ].
Proof.
  split_and!; [reflexivity..|].
  apply (C5_validator_collects_both Sample.incomplete Sample.incomplete_frr
           "both" "CSO" "REQ-2" Sample.bare);
    reflexivity.
Defined.

Lemma C6_term_links_deduplicated_witness :
  Sample.index !! Js.toLowerCase "Example Term" = Some Sample.term_uuid
  ∧ Sample.index !! Js.toLowerCase "ET" = Some Sample.term_uuid
  ∧ length (links_to ("#" +:+ Sample.term_uuid) "term"
              (buildRequirementControl "REQ-2" Sample.flat "20x" "CSO"
                 Sample.index false)) = 1%nat
  ∧ length (links_to ("#" +:+ Sample.term_uuid) "term"
              (buildIndicatorControl Sample.index ("KSI-EX-01", Sample.indicator)))
    = 1%nat.
Proof.
  assert (H1 : Sample.index !! Js.toLowerCase "Example Term" = Some Sample.term_uuid)
    by (vm_compute; reflexivity).
  assert (H2 : Sample.index !! Js.toLowerCase "ET" = Some Sample.term_uuid)
    by (vm_compute; reflexivity).
  destruct (C6_term_links_deduplicated Sample.index Sample.term_uuid
              "Example Term" "ET" 0 1 ltac:(discriminate) H1 H2 eq_refl)
    as [Hreq Hind].
  split_and!; [exact H1|exact H2| |].
  - apply Hreq; reflexivity.
  - apply (Hind "KSI-EX-01" Sample.indicator); reflexivity.
Defined.

Lemma C10_both_forms_accepted_flat_dropped_witness :
  let c := buildRequirementControl "REQ-1" Sample.both "both" "CSO" ∅ false in
  check_requirement ([], 0%nat) ("both", "CSO", "REQ-1", Sample.both) = ([], 1%nat)
  ∧ c = buildRequirementControl "REQ-1" Sample.by_level "both" "CSO" ∅ false
  ∧ statement_parts c
    = [mkPart (Some "req-1_stmt") "statement" None None None
              (Some (map (level_part "req-1") Sample.levels))].
Proof.
  destruct (C10_both_forms_accepted_flat_dropped "REQ-1" Sample.both "both" "CSO"
              ∅ false "Providers MUST keep records." Sample.levels [] 0%nat
              eq_refl eq_refl)
    as (Hcheck & _ & _ & Hbuild & Hparts).
  split_and!; [exact Hcheck|exact Hbuild|exact Hparts].
Defined.

(** * Further properties *)

(** ** deduplicateLinks *)

Lemma dedup_from_keys links seen :
  NoDup (map link_key (dedup_from seen links))
  ∧ ∀ l, l ∈ dedup_from seen links → link_key l ∉ seen.
Proof.
  revert seen. induction links as [|x links IH]; intros seen; cbn [dedup_from].
  - split; [constructor|]. by intros l ?%elem_of_nil.
  - destruct (decide (link_key x ∈ seen)) as [Hin|Hnin]; [apply IH|].
    destruct (IH ({[link_key x]} ∪ seen)) as [Hnd Hout]. split.
    + cbn [map]. apply NoDup_cons. split; [|done].
      intros (l & Hk & Hl)%elem_of_map. apply Hout in Hl.
      apply Hl. rewrite <- Hk. apply elem_of_union. left. by apply elem_of_singleton.
    + intros l [->|Hl]%elem_of_cons; [done|].
      apply Hout in Hl. intros Hs. apply Hl. apply elem_of_union. by right.
Qed.

Lemma dedup_from_sublist_of links seen :
  dedup_from seen links `sublist_of` links.
Proof.
  revert seen. induction links as [|x links IH]; intros seen; cbn [dedup_from].
  - constructor.
  - destruct (decide (link_key x ∈ seen)).
    + apply sublist_cons. apply IH.
    + apply sublist_skip. apply IH.
Qed.

Lemma deduplicateLinks_filter_key links key :
  filter (fun l => link_key l = key) (deduplicateLinks links)
  = take 1 (filter (fun l => link_key l = key) links).
Proof.
  unfold deduplicateLinks. rewrite dedup_from_filter_key.
  by rewrite decide_False by apply not_elem_of_empty.
Qed.

(** X1. Of the links that share a dedup key, [deduplicateLinks] keeps the first
    and only the first; the links it keeps stay in their order, and no two
    of them share a key. *)
Theorem deduplicateLinks_keeps_first links :
  NoDup (map link_key (deduplicateLinks links))
  ∧ deduplicateLinks links `sublist_of` links
  ∧ ∀ key, filter (fun l => link_key l = key) (deduplicateLinks links)
           = take 1 (filter (fun l => link_key l = key) links).
Proof.
  split_and!.
  - apply dedup_from_keys.
  - apply dedup_from_sublist_of.
  - intros key. apply deduplicateLinks_filter_key.
Qed.

Lemma dedup_from_distinct links seen :
  NoDup (map link_key links) →
  (∀ l, l ∈ links → link_key l ∉ seen) →
  dedup_from seen links = links.
Proof.
  revert seen. induction links as [|x links IH]; intros seen Hnd Hout; [done|].
  cbn [dedup_from map] in *. apply NoDup_cons in Hnd as [Hx Hnd].
  rewrite decide_False by (apply Hout; by left). f_equal.
  apply IH; [done|]. intros l Hl [Hk%elem_of_singleton|Hs]%elem_of_union.
  - apply Hx. apply elem_of_map. eauto.
  - revert Hs. apply Hout. by right.
Qed.

(** X2. A list whose links have pairwise distinct keys is left as it is; so
    deduplicating twice is deduplicating once. *)
Theorem deduplicateLinks_fixpoint links :
  (NoDup (map link_key links) → deduplicateLinks links = links)
  ∧ deduplicateLinks (deduplicateLinks links) = deduplicateLinks links.
Proof.
  assert (Hid : ∀ ls, NoDup (map link_key ls) → deduplicateLinks ls = ls).
  { intros ls Hnd. apply dedup_from_distinct; [done|].
    intros l _. apply not_elem_of_empty. }
  split; [apply Hid|]. apply Hid. apply dedup_from_keys.
Qed.

Lemma string_app_assoc (s t u : string) : (s +:+ t) +:+ u = s +:+ t +:+ u.
Proof. induction s as [|c s IH]; [done|]. rewrite !string_app_cons. by rewrite IH. Qed.

Lemma string_app_nil_r (s : string) : s +:+ "" = s.
Proof. induction s as [|c s IH]; [done|]. rewrite string_app_cons. by rewrite IH. Qed.

(** X3. The dedup key is the href, a bar and the relation, glued without
    escaping. It cannot tell a missing relation from an empty one, nor a
    bar that ends the relation from one inside the href: in both cases the
    second link is dropped although it differs from the first in href or
    relation. *)
Theorem deduplicateLinks_key_confusion (href rel : string) (text1 text2 : option string) :
  deduplicateLinks [mkLink href None text1; mkLink href (Some "") text2]
  = [mkLink href None text1]
  ∧ deduplicateLinks [ mkLink (href +:+ "|" +:+ rel) None text1;
                       mkLink href (Some (rel +:+ "|")) text2 ]
    = [mkLink (href +:+ "|" +:+ rel) None text1].
Proof.
  assert (Hdrop : ∀ l1 l2, link_key l1 = link_key l2 →
                           deduplicateLinks [l1; l2] = [l1]).
  { intros l1 l2 Hk. unfold deduplicateLinks. cbn [dedup_from].
    rewrite decide_False by apply not_elem_of_empty.
    rewrite decide_True; [done|]. rewrite <- Hk.
    apply elem_of_union. left. by apply elem_of_singleton. }
  split; apply Hdrop; unfold link_key; cbn [link_href link_rel default from_option id].
  - done.
  - cbn. rewrite !string_app_assoc. by rewrite string_app_nil_r.
Qed.

(** ** buildTermUUIDMap *)

Lemma fold_insert_lookup (m : gmap string string) (keys : list string) uuid k :
  fold_left (fun map key => <[key := uuid]> map) keys m !! k
  = if decide (k ∈ keys) then Some uuid else m !! k.
Proof.
  revert m. induction keys as [|key keys IH]; intros m; cbn [fold_left].
  - by rewrite decide_False by apply not_elem_of_nil.
  - rewrite IH. destruct (decide (k ∈ keys)) as [Hin|Hnin].
    + rewrite decide_True; [done|]. by right.
    + destruct (decide (key = k)) as [->|Hne].
      * rewrite lookup_insert_eq, decide_True; [done|]. by left.
      * rewrite lookup_insert_ne by done. rewrite decide_False; [done|].
        by intros [->|?]%elem_of_cons.
Qed.

Lemma register_term_lookup m termId entry k :
  register_term m (termId, entry) !! k
  = if decide (k ∈ registered_texts entry)
    then Some (generateUUID NsFrdTerm termId) else m !! k.
Proof.
  unfold register_term, registered_texts.
  replace (fold_left _ (elems (term_alts entry)) _)
    with (fold_left (fun map key => <[key := generateUUID NsFrdTerm termId]> map)
            (map Js.toLowerCase (elems (term_alts entry)))
            (<[Js.toLowerCase (term_term entry) := generateUUID NsFrdTerm termId]> m)).
  - rewrite fold_insert_lookup.
    destruct (decide (k ∈ map Js.toLowerCase (elems (term_alts entry)))) as [Hin|Hnin].
    + rewrite decide_True; [done|]. by right.
    + destruct (decide (Js.toLowerCase (term_term entry) = k)) as [<-|Hne].
      * rewrite lookup_insert_eq, decide_True; [done|]. by left.
      * rewrite lookup_insert_ne by done. rewrite decide_False; [done|].
        by intros [->|?]%elem_of_cons.
  - generalize (<[Js.toLowerCase (term_term entry) := generateUUID NsFrdTerm termId]> m).
    induction (elems (term_alts entry)) as [|alt alts IH]; intros m'; [done|].
    cbn [map fold_left]. apply IH.
Qed.

Lemma buildTermUUIDMap_flat frdData :
  buildTermUUIDMap frdData = fold_left register_term (all_terms frdData) ∅.
Proof.
  unfold buildTermUUIDMap, all_terms. generalize (∅ : gmap string string).
  induction frdData as [|part frd IH]; intros m; [done|].
  cbn [fold_left mbind list_bind]. rewrite fold_left_app. apply IH.
Qed.

Lemma register_terms_lookup terms m k :
  fold_left register_term terms m !! k
  = match last (filter (fun kv => k ∈ registered_texts (snd kv)) terms) with
    | Some kv => Some (generateUUID NsFrdTerm (fst kv))
    | None => m !! k
    end.
Proof.
  revert m. induction terms as [|[termId entry] terms IH]; intros m; [done|].
  cbn [fold_left]. rewrite IH, filter_cons. cbn [snd].
  destruct (decide (k ∈ registered_texts entry)) as [Hin|Hnin].
  - rewrite last_cons.
    destruct (last (filter _ terms)) as [kv|]; [done|].
    rewrite register_term_lookup. by rewrite decide_True.
  - destruct (last (filter _ terms)) as [kv|]; [done|].
    rewrite register_term_lookup. by rewrite decide_False.
Qed.

(** X4. The glossary index is last-write-wins: a text resolves to the uuid of
    the last entry, in iteration order over partitions and terms, whose
    lowercased name or one of whose lowercased aliases it is, and it does
    not resolve when no entry registers it. *)
Theorem buildTermUUIDMap_lookup frdData k :
  buildTermUUIDMap frdData !! k
  = (fun kv => generateUUID NsFrdTerm (fst kv)) <$> last_registering k frdData.
Proof.
  rewrite buildTermUUIDMap_flat, register_terms_lookup. unfold last_registering.
  destruct (last _) as [kv|]; [done|]. apply lookup_empty.
Qed.

(** ** findDuplicateReqIds *)

Lemma filter_two_distinct {A B} (g : A → B) (P : A → Prop)
    `{!∀ x, Decision (P x)} (l : list A) a b rest :
  NoDup (map g l) → filter P l = a :: b :: rest → g a ≠ g b.
Proof.
  intros Hnd Hf.
  assert (Hsub : (a :: b :: rest) `sublist_of` l).
  { rewrite <- Hf. apply sublist_filter. }
  assert (Hnd' : NoDup (map g (a :: b :: rest))).
  { eapply sublist_NoDup; [exact Hnd|].
    change map with (@fmap list _). by apply fmap_sublist. }
  cbn [map] in Hnd'. apply NoDup_cons in Hnd' as [Hnin _].
  intros Heq. apply Hnin. rewrite Heq. by left.
Qed.

(** X5. On a process in which no key recurs within an applicability partition,
    the pre-scan reports exactly the keys that appear under two different
    applicabilities. *)
Theorem findDuplicateReqIds_valid process k :
  distinct_in_partition process →
  (k ∈ findDuplicateReqIds process
   ↔ ∃ e1 e2,
       e1 ∈ process_entries process ∧ e2 ∈ process_entries process
       ∧ entry_key e1 = k ∧ entry_key e2 = k
       ∧ entry_applicability e1 ≠ entry_applicability e2).
Proof.
  intros Hpart. rewrite findDuplicateReqIds_spec. split.
  - intros Hlen. unfold occurrences in Hlen.
    destruct (filter _ (process_entries process)) as [|a [|b rest]] eqn:Hf;
      cbn in Hlen; [lia|lia|].
    assert (Ha : a ∈ filter (fun e => entry_key e = k) (process_entries process))
      by (rewrite Hf; by left).
    assert (Hb : b ∈ filter (fun e => entry_key e = k) (process_entries process))
      by (rewrite Hf; right; by left).
    apply list_elem_of_filter in Ha as [Hka Ha], Hb as [Hkb Hb].
    exists a, b. split_and!; try done.
    pose proof (filter_two_distinct _ _ _ _ _ _ Hpart Hf) as Hne.
    cbn in Hne. intros Happ. apply Hne. by rewrite Happ, Hka, Hkb.
  - intros (e1 & e2 & H1 & H2 & Hk1 & Hk2 & Hne).
    apply (two_members_length _ e1 e2).
    + by apply list_elem_of_filter.
    + by apply list_elem_of_filter.
    + by intros ->.
Qed.

Lemma findDuplicateReqIds_valid_witness :
  distinct_in_partition Sample.process
  ∧ "REQ-1" ∈ findDuplicateReqIds Sample.process.
Proof.
  assert (Hpart : distinct_in_partition Sample.process)
    by (apply (bool_decide_unpack _); vm_compute; exact I).
  split; [exact Hpart|].
  apply (findDuplicateReqIds_valid Sample.process "REQ-1" Hpart).
  exists ("both", "CSO", "REQ-1", Sample.flat),
         ("20x", "CSO", "REQ-1", Sample.by_level).
  split_and!; [by left | right; by left | reflexivity | reflexivity | discriminate].
Defined.

(** ** validateSource *)

Lemma lacks_statement_filter {A} (es : list (A * FRRRequirement)) :
  filter (fun e => lacks_statement (snd e) = true) es = []
  ↔ Forall (fun e => lacks_statement (snd e) = false) es.
Proof.
  induction es as [|e es IH]; [by split; [constructor|]|].
  rewrite filter_cons, Forall_cons. destruct (lacks_statement (snd e)) eqn:E.
  - rewrite decide_True by done. split; [done|]. by intros [? _].
  - rewrite decide_False by done. rewrite IH. by split; [|intros [_ ?]].
Qed.

Lemma validateSource_validated data n d :
  validateSource data = Validated n d →
  Js.truthy (raw_version data) = true
  ∧ Js.defined (raw_FRD_data data) = true
  ∧ ∃ frr ksi,
      raw_FRR data = Some frr ∧ frr ≠ []
      ∧ raw_KSI data = Some ksi ∧ ksi ≠ []
      ∧ Forall (fun e => lacks_statement (snd e) = false) (all_requirements frr)
      ∧ n = length (all_requirements frr)
      ∧ d = length ksi.
Proof.
  destruct (raw_FRR data) as [frr|] eqn:HF;
    [|unfold validateSource; by rewrite HF].
  rewrite (validateSource_errors data frr HF). cbv zeta.
  unfold section_errors. rewrite HF.
  destruct (Js.truthy (raw_version data)); [|done].
  destruct (Js.defined (raw_FRD_data data)); [|done].
  destruct frr as [|p frr]; [done|].
  destruct (raw_KSI data) as [[|dk ksi]|] eqn:HK; [done| |done].
  cbn [missing_or_empty app].
  destruct (filter _ _) eqn:Hf; [|done]. intros [= <- <-].
  split_and!; try done. exists (p :: frr), (dk :: ksi).
  split_and!; try done. by apply lacks_statement_filter.
Qed.

(** X6. Validation succeeds exactly on a document with a non-empty version, a
    glossary, at least one process and one indicator domain, and no
    requirement without a statement form; it then reports the number of
    requirements and of domains. *)
Theorem validateSource_success data n d :
  validateSource data = Validated n d
  ↔ Js.truthy (raw_version data) = true
    ∧ Js.defined (raw_FRD_data data) = true
    ∧ ∃ frr ksi,
        raw_FRR data = Some frr ∧ frr ≠ []
        ∧ raw_KSI data = Some ksi ∧ ksi ≠ []
        ∧ Forall (fun e => lacks_statement (snd e) = false) (all_requirements frr)
        ∧ n = length (all_requirements frr)
        ∧ d = length ksi.
Proof.
  split; [apply validateSource_validated|].
  intros (Hv & Hd & frr & ksi & HF & Hfrr & HK & Hksi & Hall & -> & ->).
  rewrite (validateSource_errors data frr HF). cbv zeta.
  unfold section_errors. rewrite HF, HK, Hv, Hd.
  destruct frr as [|p frr]; [done|]. destruct ksi as [|dk ksi]; [done|].
  cbn [missing_or_empty app]. apply lacks_statement_filter in Hall.
  by rewrite Hall.
Qed.

(** A message of the requirement check is not a section message. *)
Lemma requirement_error_not_section reqId :
  requirement_error reqId ≠ "Missing or empty FRR section".
Proof. unfold requirement_error. by cbv [String.append]. Qed.

(** X7. Without a requirements section the validator throws before it reports
    anything. So a failed validation always lists at least one violation,
    and it lists "Missing or empty FRR section" only for a requirements
    section that is present and empty. *)
Theorem validateSource_missing_FRR data :
  (raw_FRR data = None → validateSource data = TypeError)
  ∧ (∀ errors, validateSource data = Failed errors →
       errors ≠ []
       ∧ ("Missing or empty FRR section" ∈ errors → raw_FRR data = Some [])).
Proof.
  split.
  - intros HF. unfold validateSource. by rewrite HF.
  - intros errors Hv. destruct (raw_FRR data) as [frr|] eqn:HF;
      [|unfold validateSource in Hv; by rewrite HF in Hv].
    rewrite (validateSource_errors data frr HF) in Hv. cbv zeta in Hv.
    destruct (section_errors data ++ _) as [|e es] eqn:E; [done|].
    injection Hv as <-. split; [done|]. rewrite <- E. clear E.
    intros [Hin|Hin]%elem_of_app.
    + destruct frr as [|p frr]; [done|]. exfalso.
      unfold section_errors in Hin. rewrite HF in Hin. cbn [missing_or_empty] in Hin.
      destruct (Js.truthy (raw_version data)), (Js.defined (raw_FRD_data data)),
        (missing_or_empty (raw_KSI data)); cbn in Hin;
        repeat (apply elem_of_cons in Hin as [Hin|Hin]; [discriminate Hin|]);
        by apply elem_of_nil in Hin.
    + apply elem_of_map in Hin as (e0 & Heq & _). symmetry in Heq.
      by apply requirement_error_not_section in Heq.
Qed.

Lemma validateSource_missing_FRR_witness :
  validateSource (mkRaw (Some "1.0.0") (Some []) None (Some [])) = TypeError
  ∧ raw_FRR (mkRaw (Some "1.0.0") (Some []) (Some []) None) = Some [].
Proof.
  split.
  - apply (proj1 (validateSource_missing_FRR
                    (mkRaw (Some "1.0.0") (Some []) None (Some [])))).
    reflexivity.
  - apply (proj2 (validateSource_missing_FRR
                    (mkRaw (Some "1.0.0") (Some []) (Some []) None))
             [ "Missing or empty FRR section"; "Missing or empty KSI section" ]).
    + reflexivity.
    + by left.
Defined.

(** ** The driver: validation, builds and counts *)

Lemma fold_left_add_lengths {A B} (g : A → list B) (l : list A) (a : nat) :
  fold_left (fun s x => s + length (g x))%nat l a = (a + length (l ≫= g))%nat.
Proof.
  revert a. induction l as [|x l IH]; intros a; cbn [fold_left mbind list_bind].
  - cbn. lia.
  - rewrite IH, length_app. lia.
Qed.

Lemma catalogControlCount_controls now frmr :
  catalogControlCount (buildCatalog now frmr)
  = length (catalog_controls (buildCatalog now frmr)).
Proof.
  unfold catalogControlCount, catalog_controls.
  assert (Hbuilt : Forall (fun g => Forall (fun sg => grp_groups sg = None)
                                           (elems (grp_groups g)))
                          (elems (cat_groups (buildCatalog now frmr)))).
  { unfold buildCatalog. cbn [cat_groups elems]. apply Forall_app. split.
    - apply Forall_forall. intros g ([pk p] & -> & _)%elem_of_map. constructor.
    - constructor; [|constructor]. cbn [grp_groups elems].
      apply Forall_forall. by intros sg ([dk d] & -> & _)%elem_of_map. }
  revert Hbuilt. generalize (elems (cat_groups (buildCatalog now frmr))) as groups.
  intros groups Hbuilt.
  enough (∀ a, fold_left
                 (fun sum g =>
                    (sum + length (elems (grp_controls g))
                     + fold_left (fun s sg => s + length (elems (grp_controls sg)))%nat
                                 (elems (grp_groups g)) O)%nat) groups a
               = (a + length (flat_map group_controls groups))%nat) as Hgen
    by apply (Hgen O).
  induction Hbuilt as [|g groups Hg _ IH]; intros a; cbn [fold_left flat_map].
  - cbn. lia.
  - rewrite IH, length_app. destruct g as [gid title props parts controls groups'].
    cbn [grp_controls grp_groups group_controls elems] in *.
    rewrite length_app, fold_left_add_lengths.
    assert (length (elems groups' ≫= fun sg => elems (grp_controls sg))
            = length (match groups' with
                      | Some gs => flat_map group_controls gs
                      | None => []
                      end)) as ->; [|lia].
    destruct groups' as [gs|]; [|done]. cbn [elems] in *. f_equal.
    induction Hg as [|sg gs Hsg _ IHg]; [done|].
    cbn [mbind list_bind flat_map]. rewrite IHg. f_equal.
    destruct sg as [? ? ? ? cs sgs]. cbn in *. subst sgs. by rewrite app_nil_r.
Qed.

Lemma catalogControlCount_source now frmr :
  catalogControlCount (buildCatalog now frmr)
  = (length (all_requirements (frmr_FRR frmr)) + length (all_indicators frmr))%nat.
Proof.
  rewrite catalogControlCount_controls, catalog_controls_build.
  unfold source_controls, all_requirements.
  rewrite length_app, length_map. f_equal.
  induction (frmr_FRR frmr) as [|[pk p] frr IH]; [done|].
  cbn [mbind list_bind]. by rewrite !length_app, length_map, IH.
Qed.

(** X8. The three counts the driver prints are the sizes of the source: the
    control count is the number of requirement entries plus the number of
    indicators (and is the number of controls of the catalog), the
    resource count is the number of glossary terms, and the map count is
    the number of indicators that declare at least one external control. *)
Theorem driver_counts now frmr :
  catalogControlCount (buildCatalog now frmr)
  = (length (all_requirements (frmr_FRR frmr)) + length (all_indicators frmr))%nat
  ∧ catalogControlCount (buildCatalog now frmr)
    = length (catalog_controls (buildCatalog now frmr))
  ∧ resourceCount (buildCatalog now frmr) = length (all_terms (frmr_FRD_data frmr))
  ∧ mapCount (buildMappingCollection now frmr)
    = length (filter has_controls (all_indicators frmr)).
Proof.
  split_and!.
  - apply catalogControlCount_source.
  - apply catalogControlCount_controls.
  - pose proof (catalog_resources_build now frmr) as Hres.
    unfold catalog_resources in Hres. unfold resourceCount.
    destruct (cat_back_matter (buildCatalog now frmr)).
    + by rewrite Hres, length_map.
    + by rewrite <- (length_map buildResource), <- Hres.
  - unfold mapCount, buildMappingCollection. cbn [mc_mappings maps].
    induction (all_indicators frmr) as [|[k ind] l IH]; [done|].
    cbn [mbind list_bind]. rewrite length_app, IH, filter_cons.
    destruct (decide (has_controls (k, ind))) as [Hc|Hc];
      unfold has_controls in Hc; cbn [snd indicator_maps] in *;
      destruct (ind_controls ind) as [[|c cs]|]; cbn [elems] in Hc; try done.
    by destruct Hc.
Qed.

(** X9. On a document that passes validation the counts of the validator and
    of the driver agree: the requirement count plus the number of
    indicators is the control count of the catalog. *)
Theorem validated_counts now frmr n d :
  validateSource (of_typed frmr) = Validated n d →
  catalogControlCount (buildCatalog now frmr)
  = (n + length (all_indicators frmr))%nat
  ∧ d = length (frmr_KSI frmr).
Proof.
  intros (_ & _ & frr & ksi & [= <-] & _ & [= <-] & _ & _ & -> & ->)%validateSource_validated.
  split; [|done]. apply catalogControlCount_source.
Qed.

Lemma validated_counts_witness :
  validateSource (of_typed Sample.document) = Validated 3 1
  ∧ catalogControlCount (buildCatalog "" Sample.document) = 4%nat.
Proof.
  assert (Hv : validateSource (of_typed Sample.document) = Validated 3 1)
    by (vm_compute; reflexivity).
  split; [exact Hv|].
  exact (proj1 (validated_counts "" Sample.document 3 1 Hv)).
Defined.

Lemma indicator_statement_parts termMap kv :
  length (statement_parts (buildIndicatorControl termMap kv)) = 1%nat.
Proof. by destruct kv. Qed.

Lemma requirement_statement_count reqId req applicability label termMap needsSuffix :
  length (statement_parts (buildRequirementControl reqId req applicability label
                             termMap needsSuffix))
  = if lacks_statement req then 0%nat else 1%nat.
Proof.
  rewrite requirement_statement_parts. unfold statement_block, lacks_statement.
  destruct (req_varies_by_level req); cbn; [by rewrite andb_false_r|].
  by destruct (req_statement req) as [[|]|].
Qed.

(** X10. Validation is what guarantees statements: in the catalog of a document
    that passes validation every control, of a requirement or of an
    indicator, has exactly one "statement" part. (A requirement without a
    statement form would get a control without any.) *)
Theorem validated_controls_have_statement now frmr n d :
  validateSource (of_typed frmr) = Validated n d →
  Forall (fun c => length (statement_parts c) = 1%nat)
         (catalog_controls (buildCatalog now frmr)).
Proof.
  intros (_ & _ & frr & ksi & [= <-] & _ & _ & _ & Hall & _)%validateSource_validated.
  rewrite catalog_controls_build. unfold source_controls. apply Forall_app. split.
  - unfold all_requirements in Hall. rewrite Forall_forall in Hall.
    apply Forall_forall. intros c ([pk p] & Hc & Hp)%list_elem_of_bind.
    apply elem_of_map in Hc as ([[[a l] k] r] & -> & He).
    unfold requirement_control. rewrite requirement_statement_count.
    assert (lacks_statement r = false) as ->; [|done].
    apply (Hall (a, l, k, r)). apply list_elem_of_bind. exists (pk, p). done.
  - apply Forall_forall. intros c (kv & -> & _)%elem_of_map.
    apply indicator_statement_parts.
Qed.

Lemma validated_controls_have_statement_witness :
  validateSource (of_typed Sample.document) = Validated 3 1
  ∧ Forall (fun c => length (statement_parts c) = 1%nat)
           (catalog_controls (buildCatalog "" Sample.document)).
Proof.
  assert (Hv : validateSource (of_typed Sample.document) = Validated 3 1)
    by (vm_compute; reflexivity).
  split; [exact Hv|].
  exact (validated_controls_have_statement "" Sample.document 3 1 Hv).
Defined.

(** ** The two documents together *)

Lemma builder_link_key_related l href :
  builder_link l →
  link_key l = href +:+ "|related"
  ↔ link_href l = href ∧ link_rel l = Some "related".
Proof.
  intros Hl. unfold link_key. split.
  - destruct Hl as [-> | ->]; cbn.
    + intros H. exfalso.
      by apply (string_app_last_ne (link_href l) href "|ter" "|relate" "m" "d") in H.
    + intros H. split; [|done]. by apply (string_app_inv_tail _ _ "|related").
  - intros [-> ->]. done.
Qed.

(** Nothing is lost by deduplication: every link leaves a link with its
    key behind. *)
Lemma deduplicateLinks_covers links l :
  l ∈ links → ∃ l', l' ∈ deduplicateLinks links ∧ link_key l' = link_key l.
Proof.
  intros Hl.
  pose proof (deduplicateLinks_filter_key links (link_key l)) as Hfirst.
  assert (Hin : l ∈ filter (fun x => link_key x = link_key l) links)
    by (by apply list_elem_of_filter).
  destruct (filter _ links) as [|x xs]; [by apply elem_of_nil in Hin|].
  cbn [take] in Hfirst.
  assert (Hx : x ∈ filter (fun x => link_key x = link_key l) (deduplicateLinks links))
    by (rewrite Hfirst; by left).
  apply list_elem_of_filter in Hx as [Hk Hx]. eauto.
Qed.

(** X11. The mapping collection refers to the catalog built from the same
    source: the single source of every map entry names the id of a control
    of the catalog, and every target of the entry is the target of a
    "related" link of that control. *)
Theorem mapping_refers_to_catalog now now' frmr e :
  e ∈ collection_maps (buildMappingCollection now frmr) →
  ∃ c, c ∈ catalog_controls (buildCatalog now' frmr)
       ∧ me_sources e = [mkIdRef "control" (ctl_id c)]
       ∧ ∀ t, t ∈ me_targets e →
           ∃ l, l ∈ elems (ctl_links c)
                ∧ link_href l = "#" +:+ id_ref t
                ∧ link_rel l = Some "related".
Proof.
  rewrite collection_maps_build.
  intros ([k ind] & He & Hind)%list_elem_of_bind.
  set (termMap := buildTermUUIDMap (frmr_FRD_data frmr)).
  exists (buildIndicatorControl termMap (k, ind)). split_and!.
  - rewrite catalog_controls_build. unfold source_controls.
    apply elem_of_app. right. apply elem_of_map. eauto.
  - cbn [indicator_maps] in He.
    destruct (ind_controls ind) as [[|c cs]|]; try by apply elem_of_nil in He.
    apply list_elem_of_singleton in He as ->. done.
  - intros t Ht. cbn [indicator_maps] in He.
    destruct (ind_controls ind) as [[|c0 cs]|] eqn:Hcs; try by apply elem_of_nil in He.
    apply list_elem_of_singleton in He as ->. cbn [me_targets] in Ht.
    apply elem_of_map in Ht as (nist & -> & Hnist). cbn [id_ref].
    rewrite indicator_links_build. cbv zeta. rewrite Hcs. cbn [elems].
    pose proof (indicator_links_builder termMap ind) as Hall.
    rewrite Hcs in Hall. cbn [elems] in Hall.
    set (links := map _ (c0 :: cs) ++ term_links termMap (ind_terms ind)) in *.
    assert (Hin : mkLink ("#" +:+ nist) (Some "related") (Some (Js.toUpperCase nist))
                  ∈ links).
    { apply elem_of_app. left. apply elem_of_map. eauto. }
    destruct links as [|l0 ls] eqn:El; [by apply elem_of_nil in Hin|].
    cbn [elems]. rewrite <- El in *.
    destruct (deduplicateLinks_covers links _ Hin) as (l' & Hl' & Hk).
    exists l'. split; [done|].
    apply builder_link_key_related; [|exact Hk].
    apply dedup_from_sublist in Hl'. by eapply Forall_forall in Hall.
Qed.

Lemma mapping_refers_to_catalog_witness :
  ∃ e c, e ∈ collection_maps (buildMappingCollection "" Sample.document)
         ∧ c ∈ catalog_controls (buildCatalog "" Sample.document)
         ∧ me_sources e = [mkIdRef "control" (ctl_id c)].
Proof.
  assert (He : mkMapEntry (generateUUID NsMappingEntry "KSI-EX-01") "superset-of"
                 [mkIdRef "control" "ksi-ex-01"] [mkIdRef "control" "ac-2"]
               ∈ collection_maps (buildMappingCollection "" Sample.document))
    by (by left).
  destruct (mapping_refers_to_catalog "" "" Sample.document _ He) as (c & Hc & Hs & _).
  eexists _, c. split_and!; [exact He|exact Hc|exact Hs].
Defined.

(** ** Term references *)

Lemma generateUUID_nonempty ns id : generateUUID ns id ≠ "".
Proof. apply uuidV5_nonempty. Qed.

Lemma registered_reference_links frdData terms links t kv :
  t ∈ elems terms →
  kv ∈ all_terms frdData →
  Js.toLowerCase t ∈ registered_texts (snd kv) →
  Forall builder_link links →
  (∀ l, l ∈ term_links (buildTermUUIDMap frdData) terms → l ∈ links) →
  ∃ l kv',
    l ∈ deduplicateLinks links
    ∧ link_rel l = Some "term"
    ∧ kv' ∈ all_terms frdData
    ∧ Js.toLowerCase t ∈ registered_texts (snd kv')
    ∧ link_href l = "#" +:+ generateUUID NsFrdTerm (fst kv').
Proof.
  intros Ht Hkv Hreg Hall Hsub.
  pose proof (register_terms_lookup (all_terms frdData) ∅ (Js.toLowerCase t)) as Hlook.
  rewrite <- buildTermUUIDMap_flat in Hlook.
  destruct (last _) as [kv'|] eqn:Hlast.
  2:{ apply last_None in Hlast.
      assert (kv ∈ filter (fun kv => Js.toLowerCase t ∈ registered_texts (snd kv))
                          (all_terms frdData)) as Hin
        by (by apply list_elem_of_filter).
      rewrite Hlast in Hin. by apply elem_of_nil in Hin. }
  apply last_Some_elem_of, list_elem_of_filter in Hlast as [Hreg' Hkv'].
  cbn in Hlook.
  assert (Hin : mkLink ("#" +:+ generateUUID NsFrdTerm (fst kv')) (Some "term") (Some t)
                ∈ links).
  { apply Hsub. apply term_links_elem. exists t, (generateUUID NsFrdTerm (fst kv')).
    split_and!; [done|done|apply generateUUID_nonempty|done]. }
  destruct (deduplicateLinks_covers links _ Hin) as (l & Hl & Hk).
  exists l, kv'. split_and!; try done.
  - apply (builder_link_key l ("#" +:+ generateUUID NsFrdTerm (fst kv'))); [|exact Hk].
    apply dedup_from_sublist in Hl. by eapply Forall_forall in Hall.
  - apply (builder_link_key l ("#" +:+ generateUUID NsFrdTerm (fst kv'))); [|exact Hk].
    apply dedup_from_sublist in Hl. by eapply Forall_forall in Hall.
Qed.

(** X12. Term references resolve whatever their letter case: when the
    lowercased reference is the lowercased name or alias of some glossary
    entry, the control of the requirement, or of the indicator, carries a
    "term" link to the resource of a glossary entry that registers that
    text (the last one, if several do). *)
Theorem registered_reference_is_linked frdData t kv :
  kv ∈ all_terms frdData →
  Js.toLowerCase t ∈ registered_texts (snd kv) →
  let index := buildTermUUIDMap frdData in
  (∀ reqId req applicability label needsSuffix,
     t ∈ elems (req_terms req) →
     ∃ l kv',
       l ∈ elems (ctl_links (buildRequirementControl reqId req applicability label
                               index needsSuffix))
       ∧ link_rel l = Some "term"
       ∧ kv' ∈ all_terms frdData
       ∧ Js.toLowerCase t ∈ registered_texts (snd kv')
       ∧ link_href l = "#" +:+ generateUUID NsFrdTerm (fst kv'))
  ∧ (∀ indicatorId indicator,
       t ∈ elems (ind_terms indicator) →
       ∃ l kv',
         l ∈ elems (ctl_links (buildIndicatorControl index (indicatorId, indicator)))
         ∧ link_rel l = Some "term"
         ∧ kv' ∈ all_terms frdData
         ∧ Js.toLowerCase t ∈ registered_texts (snd kv')
         ∧ link_href l = "#" +:+ generateUUID NsFrdTerm (fst kv')).
Proof.
  intros Hkv Hreg index. subst index. split.
  - intros reqId req applicability label needsSuffix Ht.
    destruct (registered_reference_links frdData (req_terms req)
                (term_links (buildTermUUIDMap frdData) (req_terms req)) t kv)
      as (l & kv' & Hl & Hrest); try done; [apply term_links_builder|].
    exists l, kv'. split; [|exact Hrest].
    rewrite ctl_links_build. cbv zeta.
    destruct (term_links _ (req_terms req)) as [|l0 ls];
      [by apply elem_of_nil in Hl|exact Hl].
  - intros indicatorId indicator Ht.
    destruct (registered_reference_links frdData (ind_terms indicator)
                (map (fun nistControl =>
                        mkLink ("#" +:+ nistControl) (Some "related")
                               (Some (Js.toUpperCase nistControl)))
                     (elems (ind_controls indicator))
                 ++ term_links (buildTermUUIDMap frdData) (ind_terms indicator)) t kv)
      as (l & kv' & Hl & Hrest); try done.
    { apply indicator_links_builder. }
    { intros l Hl. apply elem_of_app. by right. }
    exists l, kv'. split; [|exact Hrest].
    rewrite indicator_links_build. cbv zeta.
    destruct (_ ++ _) as [|l0 ls]; [by apply elem_of_nil in Hl|exact Hl].
Qed.

Lemma registered_reference_is_linked_witness :
  ∃ l kv',
    l ∈ elems (ctl_links (buildRequirementControl "REQ-2"
                            (Minimal.req "Providers MUST document every ET.")
                            "20x" "CSO" Sample.index false))
    ∧ link_rel l = Some "term"
    ∧ kv' ∈ all_terms (frmr_FRD_data Sample.document)
    ∧ Js.toLowerCase "ET" ∈ registered_texts (snd kv')
    ∧ link_href l = "#" +:+ generateUUID NsFrdTerm (fst kv').
Proof.
  refine (proj1 (registered_reference_is_linked (frmr_FRD_data Sample.document) "ET"
                   ("FRD-ET", mkTerm None "Example Term" (Some ["ET"])
                                     "A term used as an example." None None) _ _)
                "REQ-2" (Minimal.req "Providers MUST document every ET.")
                "20x" "CSO" false _).
  - by left.
  - right. by left.
  - by left.
Defined.

(** ** buildBackMatter *)

(** X13. The back-matter has one resource per glossary entry, in iteration
    order over partitions and terms, with the title and description of the
    entry, its key as first property, a citation exactly when the entry
    has a non-empty reference, and a uuid made from the term key alone. So
    a term key that recurs in two applicability partitions yields two
    resources with the same uuid: resource uuids can only be pairwise
    distinct when term keys are. *)
Theorem back_matter_resources now frmr :
  let resources := catalog_resources (buildCatalog now frmr) in
  Forall2
    (fun (kv : string * FRDTermEntry) (r : BackMatterResource) =>
       res_uuid r = generateUUID NsFrdTerm (fst kv)
       ∧ res_title r = Some (term_term (snd kv))
       ∧ res_description r = Some (term_definition (snd kv))
       ∧ (∃ rest, res_props r = Some (fProp "term-id" (fst kv) :: rest))
       ∧ (res_citation r = None ↔ Js.truthy (term_reference (snd kv)) = false))
    (all_terms (frmr_FRD_data frmr)) resources
  ∧ (NoDup (map res_uuid resources) → NoDup (map fst (all_terms (frmr_FRD_data frmr)))).
Proof.
  intros resources. subst resources. rewrite catalog_resources_build. split.
  - induction (all_terms (frmr_FRD_data frmr)) as [|[termId entry] terms IH];
      cbn [map]; constructor; [|exact IH].
    cbn [buildResource res_uuid res_title res_description res_props res_citation
         fst snd app].
    split_and!; try done; [by eexists|].
    destruct (term_reference entry) as [[|c ref]|]; cbn; by split.
  - rewrite map_map.
    replace (map (fun x => res_uuid (buildResource x)) (all_terms (frmr_FRD_data frmr)))
      with (map (generateUUID NsFrdTerm) (map fst (all_terms (frmr_FRD_data frmr)))).
    + change map with (@fmap list _) at 1. apply NoDup_fmap_1.
    + rewrite map_map. apply map_ext. by intros [termId entry].
Qed.

Lemma back_matter_resources_witness :
  NoDup (map res_uuid (catalog_resources (buildCatalog "" Sample.document)))
  ∧ NoDup (map fst (all_terms (frmr_FRD_data Sample.document))).
Proof.
  assert (Hnd : NoDup (map res_uuid (catalog_resources (buildCatalog "" Sample.document))))
    by (apply (bool_decide_unpack _); vm_compute; exact I).
  split; [exact Hnd|].
  exact (proj2 (back_matter_resources "" Sample.document) Hnd).
Defined.

(** ** Letter case of ids *)

Lemma lower_ascii_idemp c : Js.lower_ascii (Js.lower_ascii c) = Js.lower_ascii c.
Proof. destruct c as [[] [] [] [] [] [] [] []]; reflexivity. Qed.

Lemma toLowerCase_idemp s : Js.toLowerCase (Js.toLowerCase s) = Js.toLowerCase s.
Proof. induction s as [|c s IH]; [done|]. cbn. by rewrite lower_ascii_idemp, IH. Qed.

Lemma toLowerCase_app s t :
  Js.toLowerCase (s +:+ t) = Js.toLowerCase s +:+ Js.toLowerCase t.
Proof.
  induction s as [|c s IH]; [done|].
  rewrite string_app_cons. cbn [Js.toLowerCase]. by rewrite IH, string_app_cons.
Qed.

(** X14. All group and control ids of the catalog are lowercase as soon as the
    applicability tags of the source are: every id is a lowercased key,
    and the only thing ever appended to one is an underscore and the tag
    as written. *)
Theorem catalog_ids_lowercase now frmr :
  (∀ kv e, kv ∈ frmr_FRR frmr → e ∈ process_entries (snd kv) →
     Js.toLowerCase (entry_applicability e) = entry_applicability e) →
  Forall (fun id => Js.toLowerCase id = id) (catalog_ids (buildCatalog now frmr)).
Proof.
  intros Htags. rewrite catalog_ids_build. apply Forall_app. split.
  - apply Forall_forall. intros id ([pk p] & Hid & Hp)%list_elem_of_bind.
    unfold process_ids in Hid. cbn [fst snd] in Hid.
    apply elem_of_cons in Hid as [->|([[[a l] k] r] & -> & He)%elem_of_map].
    + apply toLowerCase_idemp.
    + rewrite requirement_control_id. case_bool_decide.
      * pose proof (Htags (pk, p) (a, l, k, r) Hp He) as Ha.
        unfold entry_applicability in Ha. cbn [fst] in Ha.
        rewrite !toLowerCase_app, toLowerCase_idemp. by rewrite Ha.
      * apply toLowerCase_idemp.
  - apply Forall_cons. split; [done|].
    apply Forall_forall. intros id ([dk d] & Hid & _)%list_elem_of_bind.
    unfold domain_ids in Hid. cbn [fst snd] in Hid.
    apply elem_of_cons in Hid as [->|(kv & -> & _)%elem_of_map];
      apply toLowerCase_idemp.
Qed.

Lemma catalog_ids_lowercase_witness :
  Forall (fun id => Js.toLowerCase id = id)
         (catalog_ids (buildCatalog "" Sample.document)).
Proof.
  apply (catalog_ids_lowercase "" Sample.document).
  intros kv e Hkv He.
  apply list_elem_of_singleton in Hkv as ->.
  cbn [snd] in He. vm_compute in He.
  repeat (apply elem_of_cons in He as [->|He]; [reflexivity|]).
  by apply elem_of_nil in He.
Defined.

(** ** Part ids of a requirement control *)

Lemma flat_map_imap_seq {A B C} (g : B → list C) (f : nat → A → B) (h : nat → C)
    (l : list A) (j : nat) :
  (∀ i x, g (f i x) = [h i]) →
  flat_map g (imap (fun i => f (j + i)%nat) l) = map h (seq j (length l)).
Proof.
  intros Hg. revert j. induction l as [|x l IH]; intros j; [done|].
  cbn [imap flat_map length seq map]. rewrite Hg, Nat.add_0_r. cbn [app]. f_equal.
  rewrite <- IH. f_equal. apply imap_ext. intros i y _. cbn. f_equal. lia.
Qed.

Lemma item_parts_ids cid kind items :
  flat_map part_ids (item_parts cid kind items)
  = map (fun i => cid +:+ "_stmt_" +:+ kind +:+ "_" +:+ index1 i)
        (seq 0 (length (elems items))).
Proof.
  unfold item_parts.
  apply (flat_map_imap_seq part_ids
           (fun i prose =>
              mkPart (Some (cid +:+ "_stmt_" +:+ kind +:+ "_" +:+ index1 i))
                     "item" None (Some prose) None None)
           _ (elems items) 0).
  by intros i x.
Qed.

Lemma level_parts_ids cid levels :
  flat_map part_ids (map (level_part cid) levels)
  = map (fun lv => cid +:+ "_stmt_" +:+ fst lv) levels.
Proof.
  induction levels as [|[level data] levels IH]; [done|].
  cbn [map flat_map]. rewrite IH. done.
Qed.

(** The part ids of a requirement control are its id followed by the part
    suffixes of the requirement. *)
Lemma control_part_ids_build reqId req applicability label termMap needsSuffix :
  let c := buildRequirementControl reqId req applicability label termMap needsSuffix in
  control_part_ids c = map (String.append (ctl_id c)) (part_suffixes req).
Proof.
  intros c. subst c. unfold control_part_ids.
  rewrite ctl_parts_build, elems_nonempty.
  set (cid := ctl_id _). unfold part_suffixes.
  rewrite !flat_map_app, !map_app, <- app_assoc. f_equal; [|f_equal].
  - unfold statement_block, statement_suffixes.
    destruct (req_varies_by_level req) as [levels|].
    + cbn [flat_map part_ids option_list app map]. rewrite app_nil_r.
      by rewrite level_parts_ids, map_map.
    + destruct (req_statement req) as [[|ch st]|]; [done| |done].
      cbn [when_truthy Js.truthy flat_map part_ids option_list app map].
      rewrite app_nil_r. f_equal.
      assert (Hkids : ∀ ks : list Part,
                match nonempty ks with
                | Some ks' => flat_map part_ids ks'
                | None => []
                end = flat_map part_ids ks) by (by intros [|]).
      rewrite Hkids, flat_map_app, !item_parts_ids, map_app, !map_map. done.
  - unfold guidance_block. by destruct (req_examples req) as [[|]|].
  - unfold assessment_block. cbv zeta.
    by destruct (when_truthy (req_note req) id ++ elems (req_notes req)).
Qed.

(** Strings with different literal prefixes differ. *)
Ltac literal_prefix_neq :=
  let H := fresh in
  intros H; cbv [String.append] in H; discriminate H.

Lemma index1_inj i j : index1 i = index1 j → i = j.
Proof. unfold index1. intros H%(inj pretty). by injection H. Qed.

Lemma numbered_suffixes_NoDup (prefix : string) n :
  NoDup (map (fun i => prefix +:+ index1 i) (seq 0 n)).
Proof.
  apply (NoDup_map_via _ (fun i : nat => i)).
  - rewrite map_id. apply NoDup_seq.
  - intros i j _ _ H%(inj (String.app _)). by apply index1_inj.
Qed.

Lemma statement_suffixes_prefix req :
  Forall (fun s => ∃ t, s = "_stmt" +:+ t) (statement_suffixes req).
Proof.
  unfold statement_suffixes. destruct (req_varies_by_level req) as [levels|].
  - constructor; [by exists ""|].
    apply Forall_forall. intros s (lv & -> & _)%elem_of_map. by exists ("_" +:+ fst lv).
  - destruct (Js.truthy (req_statement req)); [|constructor].
    constructor; [by exists ""|]. apply Forall_app. split.
    + apply Forall_forall. intros s (i & -> & _)%elem_of_map.
      by exists ("_item_" +:+ index1 i).
    + apply Forall_forall. intros s (i & -> & _)%elem_of_map.
      by exists ("_bullet_" +:+ index1 i).
Qed.

Lemma statement_suffixes_NoDup req :
  (∀ levels, req_varies_by_level req = Some levels → NoDup (map fst levels)) →
  NoDup (statement_suffixes req).
Proof.
  intros Hlevels. unfold statement_suffixes.
  destruct (req_varies_by_level req) as [levels|].
  - apply NoDup_cons. split.
    + intros (lv & Heq & _)%elem_of_map. revert Heq. literal_prefix_neq.
    + apply (NoDup_map_via _ fst); [by apply Hlevels|].
      by intros lv1 lv2 _ _ H%(inj (String.app _)).
  - destruct (Js.truthy (req_statement req)); [|constructor].
    apply NoDup_cons. split.
    + intros [(i & Heq & _)%elem_of_map | (i & Heq & _)%elem_of_map]%elem_of_app;
        revert Heq; literal_prefix_neq.
    + apply NoDup_app. split_and!; try apply numbered_suffixes_NoDup.
      intros s (i & -> & _)%elem_of_map (j & Heq & _)%elem_of_map.
      revert Heq. literal_prefix_neq.
Qed.

Lemma part_suffixes_NoDup req :
  (∀ levels, req_varies_by_level req = Some levels → NoDup (map fst levels)) →
  NoDup (part_suffixes req).
Proof.
  intros Hlevels. unfold part_suffixes.
  pose proof (statement_suffixes_prefix req) as Hpre. rewrite Forall_forall in Hpre.
  apply NoDup_app. split_and!; [by apply statement_suffixes_NoDup| |].
  - intros s (t & ->)%Hpre Hin.
    assert (Hcase : "_stmt" +:+ t = "_guidance" ∨ "_stmt" +:+ t = "_assessment").
    { apply elem_of_app in Hin as [Hin|Hin].
      - left. destruct (req_examples req) as [[|]|];
          [by apply elem_of_nil in Hin | by apply list_elem_of_singleton in Hin
          | by apply elem_of_nil in Hin].
      - right. destruct (when_truthy (req_note req) id ++ elems (req_notes req));
          [by apply elem_of_nil in Hin | by apply list_elem_of_singleton in Hin]. }
    destruct Hcase as [Heq|Heq]; revert Heq; literal_prefix_neq.
  - destruct (req_examples req) as [[|]|],
      (when_truthy (req_note req) id ++ elems (req_notes req));
      cbn [app]; repeat constructor; try (by intros ?%elem_of_nil).
    by intros [=]%list_elem_of_singleton.
Qed.

(** X15. The ids of the parts of a requirement control, nested parts included,
    are pairwise distinct, provided the levels of a level-variant
    requirement have distinct names: follow-up items and bullets are
    numbered apart ("item" and "bullet"), and no child id can spell the id
    of the statement, guidance or assessment part. *)
Theorem requirement_part_ids_unique reqId req applicability label termMap needsSuffix :
  (∀ levels, req_varies_by_level req = Some levels → NoDup (map fst levels)) →
  NoDup (control_part_ids
           (buildRequirementControl reqId req applicability label termMap needsSuffix)).
Proof.
  intros Hlevels. rewrite control_part_ids_build.
  apply (NoDup_map_via _ (fun s : string => s)).
  - rewrite map_id. by apply part_suffixes_NoDup.
  - by intros s t _ _ H%(inj (String.app _)).
Qed.

Lemma requirement_part_ids_unique_witness :
  control_part_ids (buildRequirementControl "REQ-1" Sample.by_level "20x" "CSO" ∅ true)
  = ["req-1_20x_stmt"; "req-1_20x_stmt_low"; "req-1_20x_stmt_high"]
  ∧ NoDup (control_part_ids
             (buildRequirementControl "REQ-1" Sample.by_level "20x" "CSO" ∅ true)).
Proof.
  split; [vm_compute; reflexivity|].
  apply (requirement_part_ids_unique "REQ-1" Sample.by_level "20x" "CSO" ∅ true).
  intros levels [= <-]. apply (bool_decide_unpack _). vm_compute. exact I.
Defined.

(** ** uuidV5 *)

Lemma land_byte x : is_byte (Z.land x 0xFF).
Proof.
  unfold is_byte. change 0xFF with (Z.ones 8).
  rewrite Z.land_ones by lia. apply Z.mod_pos_bound. lia.
Qed.

Lemma be_bytes_shape n x :
  length (Sha1.be_bytes n x) = n ∧ Forall is_byte (Sha1.be_bytes n x).
Proof.
  induction n as [|n [IHl IHb]]; cbn [Sha1.be_bytes]; [by split; [|constructor]|].
  split; [cbn; by rewrite IHl|]. constructor; [apply land_byte|exact IHb].
Qed.

Lemma digest_shape msg :
  length (Sha1.digest msg) = 20%nat ∧ Forall is_byte (Sha1.digest msg).
Proof.
  unfold Sha1.digest. cbv zeta.
  set (h := fold_left Sha1.compress _ _). split.
  - rewrite !length_app. by rewrite !(proj1 (be_bytes_shape 4 _)).
  - rewrite !Forall_app. split_and!; apply be_bytes_shape.
Qed.

Lemma land_small x n : 0 <= n → 0 <= Z.land x (Z.ones n) < 2 ^ n.
Proof. intros Hn. rewrite Z.land_ones by done. apply Z.mod_pos_bound. lia. Qed.

Lemma small_cases (P : Z → Prop) (n : nat) :
  (∀ i : nat, (i < n)%nat → P (Z.of_nat i)) → ∀ x, 0 <= x < Z.of_nat n → P x.
Proof.
  intros H x Hx. rewrite <- (Z2Nat.id x) by lia. apply H. lia.
Qed.

Lemma version_byte b :
  let v := Z.lor (Z.land b 0x0f) 0x50 in 80 <= v < 96.
Proof.
  cbv zeta. pose proof (land_small b 4 ltac:(lia)) as Hr.
  change (Z.ones 4) with 0x0f in Hr. change (2 ^ 4) with (Z.of_nat 16) in Hr.
  revert Hr. generalize (Z.land b 0x0f). apply small_cases.
  intros i Hi. do 16 (destruct i as [|i]; [vm_compute; split; [discriminate|done]|]). lia.
Qed.

Lemma variant_byte b :
  let v := Z.lor (Z.land b 0x3f) 0x80 in 128 <= v < 192.
Proof.
  cbv zeta. pose proof (land_small b 6 ltac:(lia)) as Hr.
  change (Z.ones 6) with 0x3f in Hr. change (2 ^ 6) with (Z.of_nat 64) in Hr.
  revert Hr. generalize (Z.land b 0x3f). apply small_cases.
  intros i Hi. do 64 (destruct i as [|i]; [vm_compute; split; [discriminate|done]|]). lia.
Qed.

(** The sixteen bytes, named, with what is known of each. *)
Lemma uuid_bytes_shape namespace name :
  ∃ b0 b1 b2 b3 b4 b5 b6 b7 b8 b9 b10 b11 b12 b13 b14 b15,
    uuid_bytes namespace name
    = [b0; b1; b2; b3; b4; b5; b6; b7; b8; b9; b10; b11; b12; b13; b14; b15]
    ∧ Forall is_byte [b0; b1; b2; b3; b4; b5; b6; b7; b8; b9; b10; b11; b12; b13; b14; b15]
    ∧ 80 <= b6 < 96 ∧ 128 <= b8 < 192.
Proof.
  unfold uuid_bytes. cbv zeta.
  destruct (digest_shape (Hex.decode (remove_hyphens namespace) ++ utf8 name))
    as [Hlen Hall].
  destruct (Sha1.digest _) as [|b0 [|b1 [|b2 [|b3 [|b4 [|b5 [|b6 [|b7 [|b8 [|b9
    [|b10 [|b11 [|b12 [|b13 [|b14 [|b15 [|b16 [|b17 [|b18 [|b19 [|? ?]]]]]]]]]]]]]]]]]]]]];
    try discriminate Hlen.
  cbn -[Z.lor Z.land].
  eexists _, _, _, _, _, _, _, _, _, _, _, _, _, _, _, _. split; [reflexivity|].
  repeat (apply Forall_cons in Hall as [? Hall]).
  pose proof (version_byte b6) as Hversion. pose proof (variant_byte b8) as Hvariant.
  cbv zeta in Hversion, Hvariant.
  split_and!; try lia.
  repeat (constructor; [unfold is_byte in *; lia|]). constructor.
Qed.

Lemma uuidV5_format namespace name :
  uuidV5 namespace name = uuid_format (uuid_bytes namespace name).
Proof. reflexivity. Qed.

Lemma digit_hex x : 0 <= x < 16 → is_hex (Hex.digit x) = true.
Proof.
  change 16 with (Z.of_nat 16). revert x. apply small_cases.
  intros i Hi. do 16 (destruct i as [|i]; [reflexivity|]). lia.
Qed.

Lemma digit_hi b : is_byte b → is_hex (Hex.digit (b / 16)) = true.
Proof.
  intros [Hlo Hhi]. apply digit_hex. split.
  - by apply Z.div_pos.
  - apply Z.div_lt_upper_bound; lia.
Qed.

Lemma digit_lo b : is_hex (Hex.digit (b mod 16)) = true.
Proof. apply digit_hex. apply Z.mod_pos_bound. lia. Qed.

Lemma digit_version b : 80 <= b < 96 → Hex.digit (b / 16) = "5"%char.
Proof.
  intros Hb. assert (b / 16 = 5) as ->; [|reflexivity].
  symmetry. apply Z.div_unique with (r := b - 80); lia.
Qed.

Lemma digit_variant b :
  128 <= b < 192 →
  let c := Hex.digit (b / 16) in
  Ascii.eqb c "8" || Ascii.eqb c "9" || Ascii.eqb c "a" || Ascii.eqb c "b" = true.
Proof.
  intros Hb. cbv zeta.
  assert (Hq : 8 <= b / 16 < 12).
  { split; [apply Z.div_le_lower_bound; lia | apply Z.div_lt_upper_bound; lia]. }
  assert (b / 16 = 8 ∨ b / 16 = 9 ∨ b / 16 = 10 ∨ b / 16 = 11) as Hc by lia.
  destruct Hc as [-> | [-> | [-> | ->]]]; reflexivity.
Qed.

(** X16. Whatever the namespace string and the name, [uuidV5] returns a string
    in the surface form of a version-5 UUID: 36 characters, lowercase hex
    digits in groups of 8-4-4-4-12 between hyphens, version digit 5 and a
    variant digit among 8, 9, a, b. A namespace that is not a UUID is no
    error either. *)
Theorem uuidV5_surface_form namespace name :
  is_uuid_v5 (uuidV5 namespace name) = true.
Proof.
  rewrite uuidV5_format.
  destruct (uuid_bytes_shape namespace name)
    as (b0 & b1 & b2 & b3 & b4 & b5 & b6 & b7 & b8 & b9 & b10 & b11 & b12 & b13
        & b14 & b15 & -> & Hall & Hversion & Hvariant).
  repeat (apply Forall_cons in Hall as [? Hall]).
  cbv [uuid_format Hex.encode Js.join Js.substring String.substring String.append
       Nat.sub is_uuid_v5 String.length char_at String.get all_hex Nat.eqb].
  rewrite !digit_lo. rewrite !digit_hi by assumption.
  rewrite (digit_version b6 Hversion).
  pose proof (digit_variant b8 Hvariant) as Hv. cbv zeta in Hv. rewrite Hv.
  reflexivity.
Qed.

Lemma value_digit x : 0 <= x < 16 → Hex.value (Hex.digit x) = Some x.
Proof.
  change 16 with (Z.of_nat 16). revert x. apply small_cases.
  intros i Hi. do 16 (destruct i as [|i]; [reflexivity|]). lia.
Qed.

Lemma decode_encode bytes :
  Forall is_byte bytes → Hex.decode (Hex.encode bytes) = bytes.
Proof.
  induction 1 as [|b bytes [Hlo Hhi] _ IH]; [done|].
  cbn [Hex.encode Hex.decode].
  rewrite !value_digit, IH.
  - f_equal. pose proof (Z.div_mod b 16). lia.
  - apply Z.mod_pos_bound. lia.
  - split; [by apply Z.div_pos | apply Z.div_lt_upper_bound; lia].
Qed.

Lemma remove_hyphens_hex c s :
  is_hex c = true → remove_hyphens (String c s) = String c (remove_hyphens s).
Proof.
  intros Hc. cbn [remove_hyphens].
  destruct (Ascii.eqb_spec c "-") as [->|_]; [discriminate Hc|done].
Qed.

Lemma remove_hyphens_hyphen s : remove_hyphens (String "-" s) = remove_hyphens s.
Proof. reflexivity. Qed.

(** X17. A string returned by [uuidV5] reads back, as a namespace, to the
    sixteen bytes it was printed from: removing the hyphens and decoding
    the hex digits loses nothing. So the derived namespaces, and every
    generated UUID, are full sixteen-byte namespaces for a further call. *)
Theorem uuidV5_reads_back namespace name :
  Hex.decode (remove_hyphens (uuidV5 namespace name)) = uuid_bytes namespace name
  ∧ length (uuid_bytes namespace name) = 16%nat.
Proof.
  rewrite uuidV5_format.
  destruct (uuid_bytes_shape namespace name)
    as (b0 & b1 & b2 & b3 & b4 & b5 & b6 & b7 & b8 & b9 & b10 & b11 & b12 & b13
        & b14 & b15 & -> & Hall & _ & _).
  split; [|reflexivity].
  rewrite <- (decode_encode _ Hall) at 2. f_equal.
  repeat (apply Forall_cons in Hall as [? Hall]).
  cbv [uuid_format Hex.encode Js.join Js.substring String.substring String.append
       Nat.sub].
  repeat first
    [ rewrite remove_hyphens_hex by first [apply digit_lo | by apply digit_hi]
    | rewrite remove_hyphens_hyphen ].
  reflexivity.
Qed.

(** ** Props of a requirement control *)

Lemma filter_none {A} (P : A → Prop) `{!∀ x, Decision (P x)} (l : list A) :
  (∀ x, x ∈ l → ¬ P x) → filter P l = [].
Proof.
  induction l as [|x l IH]; intros Hno; [done|].
  rewrite filter_cons, decide_False by (apply Hno; by left).
  apply IH. intros y Hy. apply Hno. by right.
Qed.

Lemma named_when_truthy n x o :
  x ≠ n → filter (fun p => prop_name p = n) (when_truthy o (fProp x)) = [].
Proof.
  intros Hx. apply filter_none. intros p Hp.
  destruct o as [s|]; cbn in Hp; [|by apply elem_of_nil in Hp].
  destruct s; [by apply elem_of_nil in Hp|].
  apply list_elem_of_singleton in Hp as ->. done.
Qed.

Lemma named_map n x vs :
  x ≠ n → filter (fun p => prop_name p = n) (map (fProp x) vs) = [].
Proof.
  intros Hx. apply filter_none. intros p (v & -> & _)%elem_of_map. done.
Qed.

Lemma concat_imap_elem {A B} (Q : B → Prop) (l : list A) (f : nat → A → list B) :
  (∀ i x q, q ∈ f i x → Q q) → ∀ p, p ∈ concat (imap f l) → Q p.
Proof.
  revert f. induction l as [|x l IH]; intros f Hf p; cbn [imap concat].
  - by intros ?%elem_of_nil.
  - intros [Hp|Hp]%elem_of_app; [by eapply Hf|].
    apply (IH (f ∘ S)); [|done]. intros i y q. apply Hf.
Qed.

Lemma named_notifications n l :
  (∀ s, "notification-" +:+ s ≠ n) →
  filter (fun p => prop_name p = n) (concat (imap notification_props l)) = [].
Proof.
  intros Hn. apply filter_none.
  apply (concat_imap_elem (fun p => prop_name p ≠ n) l notification_props).
  intros i x q Hq. unfold notification_props in Hq.
  repeat (apply elem_of_cons in Hq as [->|Hq]; [apply Hn|]).
  by apply elem_of_nil in Hq.
Qed.

Lemma named_impact n o :
  "impact" ≠ n →
  filter (fun p => prop_name p = n)
    match o with
    | Some i => if impact_truthy o then [fProp "impact" (impact_value i)] else []
    | None => []
    end = [].
Proof.
  intros Hn. destruct o as [i|]; [|done].
  destruct (impact_truthy _); [|done].
  by rewrite filter_cons, decide_False.
Qed.

Lemma named_timeframe_num n o :
  "timeframe-num" ≠ n →
  filter (fun p => prop_name p = n)
    match o with
    | Some k => [fProp "timeframe-num" (Js.String_of_number k)]
    | None => []
    end = [].
Proof.
  intros Hn. destruct o as [k|]; [|done].
  by rewrite filter_cons, decide_False.
Qed.

Ltac ns_list :=
  repeat (apply Forall_cons; split; [by right|]); apply Forall_nil_2.

Lemma ns_when_truthy x o :
  Forall (fun p => prop_name p = "label" ∨ prop_ns p = Some FEDRAMP_NS)
         (when_truthy o (fProp x)).
Proof. destruct o as [[|? ?]|]; cbn; ns_list. Qed.

Lemma ns_map x vs :
  Forall (fun p => prop_name p = "label" ∨ prop_ns p = Some FEDRAMP_NS)
         (map (fProp x) vs).
Proof. apply Forall_forall. intros p (v & -> & _)%elem_of_map. by right. Qed.

Lemma ns_notifications l :
  Forall (fun p => prop_name p = "label" ∨ prop_ns p = Some FEDRAMP_NS)
         (concat (imap notification_props l)).
Proof.
  apply Forall_forall.
  apply (concat_imap_elem _ l notification_props).
  intros i x q Hq. unfold notification_props in Hq.
  repeat (apply elem_of_cons in Hq as [->|Hq]; [by right|]).
  by apply elem_of_nil in Hq.
Qed.

Ltac drop_other_names :=
  rewrite ?filter_app;
  rewrite ?named_when_truthy, ?named_map, ?named_timeframe_num, ?named_impact,
          ?named_notifications
    by first [discriminate | intros ?; literal_prefix_neq];
  rewrite ?app_nil_r; cbn [app].

(** X18. Among the props of a requirement control there is exactly one label
    (the only prop outside the FedRAMP namespace) and one applicability,
    whatever else the requirement declares; at most one danger, present
    when the source text is not empty; and at most one impact: none for an
    absent or empty text, the text itself otherwise, and for a flags
    object always one, listing the flags that are set, which is the empty
    value when none is. *)
Theorem requirement_control_props reqId req applicability label termMap needsSuffix :
  let c := buildRequirementControl reqId req applicability label termMap needsSuffix in
  props_named "label" c = [mkProp "label" label None]
  ∧ props_named "applicability" c
    = [mkProp "applicability" applicability (Some FEDRAMP_NS)]
  ∧ props_named "danger" c
    = match req_danger req with
      | Some (String _ _ as danger) => [mkProp "danger" danger (Some FEDRAMP_NS)]
      | _ => []
      end
  ∧ props_named "impact" c
    = match req_impact req with
      | Some (ImpactText (String _ _ as impact)) =>
          [mkProp "impact" impact (Some FEDRAMP_NS)]
      | Some (ImpactFlags flags) =>
          [mkProp "impact"
                  (Js.join "," (map fst (filter (fun kv => snd kv = true) flags)))
                  (Some FEDRAMP_NS)]
      | _ => []
      end
  ∧ (∀ keys, impact_value (ImpactFlags (map (fun k => (k, false)) keys)) = "")
  ∧ Forall (fun p => prop_name p = "label" ∨ prop_ns p = Some FEDRAMP_NS)
           (elems (ctl_props c)).
Proof.
  cbv zeta. unfold props_named, buildRequirementControl. cbv zeta.
  split_and!.
  - destruct (req_varies_by_level req); cbn [ctl_props app nonempty elems];
      rewrite !filter_cons, decide_True, decide_False by done;
      drop_other_names; reflexivity.
  - destruct (req_varies_by_level req); cbn [ctl_props app nonempty elems];
      rewrite !filter_cons, decide_False, decide_True by done;
      drop_other_names; reflexivity.
  - destruct (req_varies_by_level req); cbn [ctl_props app nonempty elems];
      rewrite !filter_cons, !decide_False by done;
      rewrite ?filter_app;
      rewrite !(named_when_truthy "danger" "fka"), ?(named_when_truthy "danger" "keyword"),
        ?(named_when_truthy "danger" "timeframe-type") by discriminate;
      drop_other_names;
      destruct (req_danger req) as [[|? ?]|]; reflexivity.
  - destruct (req_varies_by_level req); cbn [ctl_props app nonempty elems];
      rewrite !filter_cons, !decide_False by done;
      rewrite ?filter_app;
      rewrite ?named_when_truthy, ?named_map, ?named_timeframe_num, ?named_notifications
        by first [discriminate | intros ?; literal_prefix_neq];
      rewrite ?app_nil_r; cbn [app];
      destruct (req_impact req) as [[[|? ?]|flags]|]; reflexivity.
  - intros keys. cbn [impact_value].
    replace (filter _ _) with (@nil (string * bool)); [reflexivity|].
    symmetry. apply filter_none. by intros kv (k & -> & _)%elem_of_map.
  - destruct (req_varies_by_level req); cbn [ctl_props app nonempty elems];
      repeat (apply Forall_cons; split; [first [by left | by right]|]);
      rewrite ?Forall_app; split_and!;
      first [ apply ns_when_truthy | apply ns_map | apply ns_notifications
            | by destruct (req_timeframe_num req); ns_list
            | by destruct (req_impact req) as [[[|? ?]|?]|]; cbn; ns_list ].
Qed.

(** ** Instances of the further properties *)

Lemma deduplicateLinks_fixpoint_witness :
  deduplicateLinks [ mkLink "#ac-2" (Some "related") (Some "AC-2");
                     mkLink "#ac-2" (Some "term") (Some "account") ]
  = [ mkLink "#ac-2" (Some "related") (Some "AC-2");
      mkLink "#ac-2" (Some "term") (Some "account") ].
Proof.
  apply (proj1 (deduplicateLinks_fixpoint _)).
  apply (bool_decide_unpack _). vm_compute. reflexivity.
Defined.
